(** * Face recognition engine: biometric matching pipeline

    Shallow embedding of [backend/core/face_engine.py]
    (class [FaceRecognitionEngine]) and the properties of its matching
    pipeline.

    Numbers.  Python floats are modelled by exact rationals [Q]; every
    constant of the source is written with its decimal literal.  The one
    irrational operation of the source, [np.std], is only ever compared
    with a positive constant, so the comparison is carried out on the
    variance against the squared constant.

    External collaborators.  Face detection, embedding extraction, pixel
    statistics and [face_recognition.face_distance] come from libraries
    outside the repository.  Their results are inputs of the model: the
    distance is a Section variable, and what the image libraries compute
    from a photo is carried by a record. *)

From Stdlib Require Import QArith Qminmax Qabs Lqa.
From Stdlib Require Import List String Ascii Bool Arith ZArith Lia.
From Stdlib Require Import DecimalString.
From Stdlib Require Import Permutation Sorted.
Import ListNotations.

Local Open Scope Q_scope.

(** ** Float comparisons, as boolean tests *)

Definition Qleb (x y : Q) : bool := Qle_bool x y.
Definition Qltb (x y : Q) : bool := negb (Qle_bool y x).

Infix "<=?" := Qleb (at level 70, no associativity) : Q_scope.
Infix "<?" := Qltb (at level 70, no associativity) : Q_scope.

(** ** The numpy reductions used by the engine *)

Module np.

(** [np.sum] *)
Definition sum (l : list Q) : Q := fold_left Qplus l 0.

(** [np.mean]: sum over length. *)
Definition mean (l : list Q) : Q := sum l / inject_Z (Z.of_nat (List.length l)).

(** [np.min] and [np.max] of a list given by its head and tail (both
    raise on an empty sequence; every call site is guarded). *)
Definition min (x : Q) (l : list Q) : Q := fold_left Qmin l x.
Definition max (x : Q) (l : list Q) : Q := fold_left Qmax l x.

(** Square of [np.std]: the population variance. *)
Definition var (l : list Q) : Q :=
  let m := mean l in mean (map (fun x => (x - m) * (x - m)) l).

(** [np.argmax]: index of the first maximal element. *)
Fixpoint argmax_from (best : Z) (besti i : nat) (l : list Z) : nat :=
  match l with
  | [] => besti
  | x :: t => if (best <? x)%Z then argmax_from x i (S i) t
              else argmax_from best besti (S i) t
  end.

Definition argmax (l : list Z) : nat :=
  match l with
  | [] => O
  | x :: t => argmax_from x O 1%nat t
  end.

End np.

(** ** Configuration

    Attributes assigned once in [__init__] and never written again. *)

Definition min_face_size : Z := 50.
Definition max_faces_per_person : nat := 4.
Definition use_ensemble_method : bool := true.
Definition ensemble_weights : list Q := [0.4; 0.3; 0.2; 0.1].
Definition dynamic_threshold : bool := true.
Definition min_threshold : Q := 0.45.
Definition max_threshold : Q := 0.75.
Definition history_window : nat := 10.
Definition temporal_bonus : Q := 0.05.
Definition default_confidence_threshold : Q := 0.55.
Definition known_faces_dir : string := "known_faces"%string.

(** ** Distance to similarity *)

(** [_distance_to_similarity] *)
Definition _distance_to_similarity (distance : Q) : Q :=
  if distance <=? 0.25 then 1.0 - (distance / 0.25) * 0.1
  else if distance <=? 0.35 then 0.9 - ((distance - 0.25) / 0.1) * 0.15
  else if distance <=? 0.45 then 0.75 - ((distance - 0.35) / 0.1) * 0.25
  else if distance <=? 0.6 then 0.5 - ((distance - 0.45) / 0.15) * 0.3
  else Qmax 0.0 (0.2 - ((distance - 0.6) / 0.4) * 0.2).

(** The five band formulas, named so that the agreement of neighbouring
    bands at a breakpoint can be stated. *)
Definition band1 (d : Q) : Q := 1.0 - (d / 0.25) * 0.1.
Definition band2 (d : Q) : Q := 0.9 - ((d - 0.25) / 0.1) * 0.15.
Definition band3 (d : Q) : Q := 0.75 - ((d - 0.35) / 0.1) * 0.25.
Definition band4 (d : Q) : Q := 0.5 - ((d - 0.45) / 0.15) * 0.3.
Definition band5 (d : Q) : Q := Qmax 0.0 (0.2 - ((d - 0.6) / 0.4) * 0.2).

(** ** Python dictionaries

    [person_encodings] and [known_faces_metadata] are Python dicts with
    string keys.  A dict iterates in insertion order and the recognition
    loop depends on that order, so a dict is an association list: a new
    key goes to the end, an existing key keeps its place. *)

Definition dict (V : Type) : Type := list (string * V).

Fixpoint dict_get {V} (k : string) (d : dict V) : option V :=
  match d with
  | [] => None
  | (k', v) :: t => if String.eqb k' k then Some v else dict_get k t
  end.

(** [k in d] *)
Definition dict_mem {V} (k : string) (d : dict V) : bool :=
  match dict_get k d with Some _ => true | None => false end.

(** [d[k] = v] *)
Fixpoint dict_set {V} (k : string) (v : V) (d : dict V) : dict V :=
  match d with
  | [] => [(k, v)]
  | (k', v') :: t =>
      if String.eqb k' k then (k', v) :: t else (k', v') :: dict_set k v t
  end.

(** [del d[k]]; the keys of a dict are unique, so at most one entry
    goes. *)
Fixpoint dict_del {V} (k : string) (d : dict V) : dict V :=
  match d with
  | [] => []
  | (k', v') :: t =>
      if String.eqb k' k then dict_del k t else (k', v') :: dict_del k t
  end.

(** [d.keys()] *)
Definition dict_keys {V} (d : dict V) : list string := map fst d.

(** ** Python list operations *)

(** [l.index(x)]: position of the first occurrence ([None]: ValueError). *)
Fixpoint list_index (x : string) (l : list string) : option nat :=
  match l with
  | [] => None
  | y :: t => if String.eqb y x then Some O
              else option_map S (list_index x t)
  end.

(** [l[i] = v] ([None]: IndexError). *)
Fixpoint list_assign {A} (i : nat) (v : A) (l : list A) : option (list A) :=
  match l, i with
  | [], _ => None
  | _ :: t, O => Some (v :: t)
  | x :: t, S j => option_map (cons x) (list_assign j v t)
  end.

(** [del l[i]] ([None]: IndexError). *)
Fixpoint list_del {A} (i : nat) (l : list A) : option (list A) :=
  match l, i with
  | [], _ => None
  | _ :: t, O => Some t
  | x :: t, S j => option_map (cons x) (list_del j t)
  end.

(** [[i for i, y in enumerate(l) if y == x]], counting from [i]. *)
Fixpoint indices_of (x : string) (i : nat) (l : list string) : list nat :=
  match l with
  | [] => []
  | y :: t => if String.eqb y x then i :: indices_of x (S i) t
              else indices_of x (S i) t
  end.

(** [l[-n:]] *)
Definition last_n {A} (n : nat) (l : list A) : list A :=
  skipn (List.length l - n) l.

(** [str(n)] for a non-negative integer. *)
Definition str_nat (n : nat) : string := NilEmpty.string_of_uint (Nat.to_uint n).

(** ** Data *)

(** An embedding: the vector of floats produced by the encoder. *)
Definition Embedding : Type := list Q.

(** A face location [(top, right, bottom, left)]. *)
Definition Box : Type := (Z * Z * Z * Z)%type.

(** The dict returned by [_validate_face_quality]. *)
Record Quality : Type := mkQuality {
  quality_score : Q;
  issues : list string;
  is_good_quality : bool;
  brightness : Q;
  contrast : Q;
  sharpness : Q
}.

(** One entry of [known_faces_metadata].  [add_known_person] writes
    every key but [photo_path]; an entry that [_load_legacy_format] takes
    over from the earlier engine ([core/face_recognition_engine.py]) has
    [name], [added_date], [photo_path], [access_level] and [notes], and a
    [face_encoding_shape] that this engine never reads and the record
    leaves out.  A key that one of the two writers leaves out is an
    option. *)
Record Metadata : Type := mkMetadata {
  md_name : string;
  added_date : string;
  photo_paths : option (list string);
  md_photo_path : option string;
  access_level : string;
  notes : string;
  encoding_count : option nat;
  md_quality_score : option Q;
  quality_issues : option (list string);
  last_updated : option string
}.

(** [metadata.get("photo_paths", [])] *)
Definition photo_paths_of (m : Metadata) : list string :=
  match photo_paths m with
  | Some paths => paths
  | None => []
  end.

(** The caller's [metadata] argument of [add_known_person]; each key may
    be missing. *)
Record MetaArg : Type := mkMetaArg {
  arg_access_level : option string;
  arg_notes : option string
}.

(** The mutable attributes of the engine.  The first four are the
    identity store; [photo_files] is the content of the [photos]
    directory, path to bytes. *)
Record Engine : Type := mkEngine {
  known_face_encodings : list Embedding;
  known_face_names : list string;
  person_encodings : dict (list Embedding);
  known_faces_metadata : dict Metadata;
  recognition_history : list string;
  confidence_threshold : Q;
  photo_files : dict string
}.

(** The engine after [__init__] with nothing on disk. *)
Definition new_engine : Engine :=
  mkEngine [] [] [] [] [] default_confidence_threshold [].

(** The identity store of an engine. *)
Definition store (self : Engine) :
  list Embedding * list string * dict (list Embedding) * dict Metadata :=
  (known_face_encodings self, known_face_names self,
   person_encodings self, known_faces_metadata self).

(** Pixel statistics of a face region, computed by OpenCV and numpy:
    mean luma, standard deviation, variance of the Laplacian. *)
Record PixelStats : Type := mkPixelStats {
  px_brightness : Q;
  px_contrast : Q;
  px_laplacian_var : Q
}.

(** What the image libraries compute from a decoded picture. *)
Record Image : Type := mkImage {
  img_height : Z;
  img_width : Z;
  (** [face_recognition.face_locations] *)
  detect : list Box;
  (** statistics of the padded face region; [None] when the library raises *)
  pixel_stats : Box -> option PixelStats;
  (** [face_recognition.face_encodings] for one location; [None] when it
      returns nothing or raises *)
  encode : Box -> option Embedding;
  (** [image.save]: the bytes written, [None] when saving raises *)
  jpeg : option string
}.

(** ** Quality validator *)

Definition penalise (c : bool) (factor : Q) (tag : string)
  (acc : Q * list string) : Q * list string :=
  if c then (fst acc * factor, snd acc ++ [tag]) else acc.

(** [_validate_face_quality]; [None] is an exception (division by a zero
    face height, or a failure of the pixel statistics). *)
Definition _validate_face_quality (image : Image) (face_location : Box)
  : option Quality :=
  let '(top, right_, bottom, left_) := face_location in
  let face_width := (right_ - left_)%Z in
  let face_height := (bottom - top)%Z in
  let acc := (1.0, @nil string) in
  let acc :=
    if ((face_width <? 60) || (face_height <? 60))%Z
    then penalise true 0.5 "small_face" acc
    else penalise ((face_width <? 100) || (face_height <? 100))%Z
           0.8 "medium_face" acc in
  if (face_height =? 0)%Z then None else
  let aspect_ratio := inject_Z face_width / inject_Z face_height in
  let acc :=
    penalise ((aspect_ratio <? 0.6) || (1.6 <? aspect_ratio))
      0.6 "unusual_aspect_ratio" acc in
  match pixel_stats image face_location with
  | None => None
  | Some st =>
    let brightness := px_brightness st in
    let acc :=
      if brightness <? 40 then penalise true 0.5 "too_dark" acc
      else if 220 <? brightness then penalise true 0.7 "too_bright" acc
      else penalise ((brightness <? 80) || (180 <? brightness))
             0.9 "suboptimal_lighting" acc in
    let contrast := px_contrast st in
    let acc :=
      if contrast <? 25 then penalise true 0.6 "low_contrast" acc
      else penalise (contrast <? 40) 0.8 "medium_contrast" acc in
    let laplacian_var := px_laplacian_var st in
    let acc :=
      if laplacian_var <? 50 then penalise true 0.4 "blurry" acc
      else penalise (laplacian_var <? 100) 0.7 "slight_blur" acc in
    let edge_threshold := 20%Z in
    let acc :=
      penalise ((left_ <? edge_threshold) || (top <? edge_threshold) ||
                (img_width image - edge_threshold <? right_) ||
                (img_height image - edge_threshold <? bottom))%Z
        0.8 "edge_face" acc in
    let quality_score := fst acc in
    let issues := snd acc in
    Some (mkQuality quality_score issues
            ((0.7 <? quality_score) && (List.length issues <=? 2)%nat)
            brightness contrast laplacian_var)
  end.

(** [_extract_face_encoding] called with a face location. *)
Definition _extract_face_encoding (image : Image) (face_location : Box)
  : option Embedding :=
  let '(top, right_, bottom, left_) := face_location in
  let face_width := (right_ - left_)%Z in
  let face_height := (bottom - top)%Z in
  if ((face_width <? min_face_size) || (face_height <? min_face_size))%Z
  then None
  else encode image face_location.

(** ** Dynamic threshold *)

(** [_get_dynamic_threshold] *)
Definition _get_dynamic_threshold (self : Engine) (face_quality : Quality) : Q :=
  if negb dynamic_threshold then confidence_threshold self else
  let base_threshold := confidence_threshold self in
  let quality_score := quality_score face_quality in
  let brightness := brightness face_quality in
  let contrast := contrast face_quality in
  let sharpness := sharpness face_quality in
  let threshold_adjustment := 0.0 in
  let threshold_adjustment :=
    if 0.8 <? quality_score then threshold_adjustment - 0.05
    else if quality_score <? 0.5 then threshold_adjustment + 0.1
    else threshold_adjustment in
  let threshold_adjustment :=
    if (brightness <? 60) || (200 <? brightness)
    then threshold_adjustment + 0.05 else threshold_adjustment in
  let threshold_adjustment :=
    if contrast <? 30 then threshold_adjustment + 0.05
    else threshold_adjustment in
  let threshold_adjustment :=
    if sharpness <? 80 then threshold_adjustment + 0.08
    else if 200 <? sharpness then threshold_adjustment - 0.03
    else threshold_adjustment in
  let dynamic_threshold := base_threshold + threshold_adjustment in
  Qmax min_threshold (Qmin max_threshold dynamic_threshold).

(** [update_confidence_threshold]: the setter of the base threshold;
    [None] is the range error. *)
Definition update_confidence_threshold (self : Engine) (threshold : Q)
  : option Engine :=
  if negb ((0.1 <=? threshold) && (threshold <=? 1.0)) then None
  else Some (mkEngine (known_face_encodings self) (known_face_names self)
               (person_encodings self) (known_faces_metadata self)
               (recognition_history self) threshold (photo_files self)).

(** ** Temporal consistency *)

Definition Unknown : string := "Unknown"%string.

(** [sum(1 for entry in l if entry == person_name)] *)
Definition count_name (person_name : string) (l : list string) : nat :=
  List.length (filter (String.eqb person_name) l).

(** [_apply_temporal_consistency] *)
Definition _apply_temporal_consistency (self : Engine) (person_name : string)
  (confidence : Q) : Q :=
  match recognition_history self with
  | [] => confidence
  | _ :: _ =>
    if String.eqb person_name Unknown then confidence else
    let recent_count :=
      count_name person_name (last_n 5 (recognition_history self)) in
    if (2 <=? recent_count)%nat then
      let bonus :=
        Qmin (temporal_bonus * inject_Z (Z.of_nat recent_count)) 0.15 in
      Qmin 1.0 (confidence + bonus)
    else confidence
  end.

Definition set_history (self : Engine) (h : list string) : Engine :=
  mkEngine (known_face_encodings self) (known_face_names self)
    (person_encodings self) (known_faces_metadata self)
    h (confidence_threshold self) (photo_files self).

(** [_update_recognition_history] *)
Definition _update_recognition_history (self : Engine) (person_name : string)
  : Engine :=
  let h := recognition_history self ++ [person_name] in
  if (history_window <? List.length h)%nat
  then set_history self (last_n history_window h)
  else set_history self h.

(** ** Results of the operations *)

Inductive AddResult : Type :=
| AddNoFace                     (* "No face detected" *)
| AddLowQuality (score : Q) (issues : list string)
| AddNoFeatures (face_count : nat)   (* "Could not extract face features" *)
| AddOutlier (distance_to_existing : Q)
| AddFailed                     (* the [except Exception] handler *)
| AddOk (person_count encoding_count face_locations : nat)
        (score : Q) (issues : list string).

Definition add_success (r : AddResult) : bool :=
  match r with AddOk _ _ _ _ _ => true | _ => false end.

Inductive RemoveResult : Type :=
| RemoveNotFound
| RemoveFailed                  (* the [except Exception] handler *)
| RemoveOk (remaining_persons : nat).

(** One element of [recognized_persons]. *)
Record Outcome : Type := mkOutcome {
  name : string;
  confidence : Q;
  face_location : Box;
  out_access_level : string;
  metadata : option Metadata;
  face_quality : Q;
  out_quality_issues : list string;
  out_dynamic_threshold : Q;
  validation_details : Q * Q * Q
}.

Inductive RecognizeResult : Type :=
| RecNoFaces
| RecFailed                     (* the [except Exception] handler *)
| RecOk (faces_detected : nat) (recognized_persons : list Outcome).

(** One element of the [persons] list of [list_known_persons]. *)
Record PersonInfo : Type := mkPersonInfo {
  pi_name : string;
  pi_access_level : string;
  pi_added_date : string;
  pi_notes : string;
  pi_encoding_count : nat;
  pi_photo_count : nat;
  pi_quality_score : Q;
  pi_has_photos : bool
}.

(** ** Sorting the scores

    [best_scores.sort(reverse=True)] on a list of [(similarity, name)]
    tuples: tuples compare lexicographically, strings by code point; the
    sort is stable. *)

Definition tuple_lt (a b : Q * string) : bool :=
  (fst a <? fst b) || (Qeq_bool (fst a) (fst b) && String.ltb (snd a) (snd b)).

Fixpoint insert_desc (x : Q * string) (l : list (Q * string))
  : list (Q * string) :=
  match l with
  | [] => [x]
  | y :: t => if tuple_lt x y then y :: insert_desc x t else x :: y :: t
  end.

Definition sort_desc (l : list (Q * string)) : list (Q * string) :=
  fold_right insert_desc [] l.

Section Engine.

(** [face_recognition.face_distance] between two embeddings. *)
Variable distance_between : Embedding -> Embedding -> Q.

(** [face_recognition.face_distance(face_encodings, face_to_compare)] *)
Definition face_distance (face_encodings : list Embedding)
  (face_to_compare : Embedding) : list Q :=
  map (fun e => distance_between e face_to_compare) face_encodings.

(** *** Similarity scorer *)

(** The weight applied at position [i] of the reference list. *)
Definition ensemble_weight (i : nat) : Q :=
  let weight_idx := Nat.min i (List.length ensemble_weights - 1) in
  nth weight_idx ensemble_weights 0.

(** The list [similarities] built by the loop over
    [enumerate(distances)]. *)
Definition weighted_similarities (distances : list Q) : list Q :=
  map (fun '(i, distance) => _distance_to_similarity distance * ensemble_weight i)
      (combine (seq 0 (List.length distances)) distances).

(** The value of [final_score] before the closing [min]. *)
Definition ensemble_score (d0 : Q) (ds : list Q) : Q :=
  let distances := d0 :: ds in
  let weighted_average := np.sum (weighted_similarities distances) in
  let best_match :=
    np.max (_distance_to_similarity d0) (map _distance_to_similarity ds) in
  let min_distance := np.min d0 ds in
  let variance := np.var distances in
  let consistency_bonus :=
    if 0.15 * 0.15 <? variance then 0.8
    else if variance <? 0.05 * 0.05 then 1.1
    else 1.0 in
  let final_score :=
    (weighted_average * 0.5 + best_match * 0.3 + (1.0 - min_distance) * 0.2)
    * consistency_bonus in
  if (3 <=? List.length distances)%nat then
    let matches_above_threshold :=
      List.length (filter (fun d => d <=? 0.5) distances) in
    let consensus_ratio :=
      inject_Z (Z.of_nat matches_above_threshold)
      / inject_Z (Z.of_nat (List.length distances)) in
    if consensus_ratio <? 0.6 then final_score * 0.7 else final_score
  else final_score.

(** The scorer applied to the reference list of one identity. *)
Definition similarity_of (references : list Embedding)
  (face_encoding : Embedding) : Q :=
  match face_distance references face_encoding with
  | [] => 0.0
  | d0 :: ds =>
    if negb use_ensemble_method || (List.length references =? 1)%nat
    then _distance_to_similarity (np.min d0 ds)
    else Qmin 1.0 (ensemble_score d0 ds)
  end.

(** [_calculate_similarity_score] *)
Definition _calculate_similarity_score (self : Engine)
  (face_encoding : Embedding) (person_name : string) : Q :=
  match dict_get person_name (person_encodings self) with
  | None => 0.0
  | Some person_encodings => similarity_of person_encodings face_encoding
  end.

(** *** Enrollment *)

Definition set_store (self : Engine) (encodings : list Embedding)
  (names : list string) (persons : dict (list Embedding)) : Engine :=
  mkEngine encodings names persons (known_faces_metadata self)
    (recognition_history self) (confidence_threshold self) (photo_files self).

Definition set_metadata_and_files (self : Engine) (md : dict Metadata)
  (files : dict string) : Engine :=
  mkEngine (known_face_encodings self) (known_face_names self)
    (person_encodings self) md
    (recognition_history self) (confidence_threshold self) files.

(** The face used for enrollment: the only one, or the largest. *)
Definition choose_face (first : Box) (rest : list Box) : Box :=
  let face_locations := first :: rest in
  if (1 <? List.length face_locations)%nat then
    let face_sizes :=
      map (fun '(top, right_, bottom, left_) =>
             ((right_ - left_) * (bottom - top))%Z) face_locations in
    nth (np.argmax face_sizes) face_locations first
  else first.

(** The lines of [add_known_person] that update the three encoding
    structures; [inr] carries the state reached when an exception
    interrupts them. *)
Definition store_encoding (self : Engine) (name : string)
  (face_encoding : Embedding) : Engine + Engine :=
  match dict_get name (person_encodings self) with
  | Some existing =>
    if (max_faces_per_person <=? List.length existing)%nat then
      (* Replace the oldest encoding *)
      match list_index name (known_face_names self) with
      | None => inr self
      | Some old_encoding_idx =>
        match list_assign old_encoding_idx face_encoding
                (known_face_encodings self) with
        | None => inr self
        | Some encodings =>
          let self1 :=
            set_store self encodings (known_face_names self)
              (person_encodings self) in
          match list_assign 0 face_encoding existing with
          | None => inr self1
          | Some replaced =>
            inl (set_store self1 encodings (known_face_names self)
                   (dict_set name replaced (person_encodings self)))
          end
        end
      end
    else
      inl (set_store self
             (known_face_encodings self ++ [face_encoding])
             (known_face_names self ++ [name])
             (dict_set name (existing ++ [face_encoding])
                (person_encodings self)))
  | None =>
    inl (set_store self
           (known_face_encodings self ++ [face_encoding])
           (known_face_names self ++ [name])
           (dict_set name [face_encoding] (person_encodings self)))
  end.

(** [len(self.person_encodings[name])] *)
Definition encodings_of (self : Engine) (name : string) : list Embedding :=
  match dict_get name (person_encodings self) with
  | Some l => l
  | None => []
  end.

(** The tail of [add_known_person]: photo, metadata, result. *)
Definition record_photo (self : Engine) (name : string) (image : Image)
  (face_count : nat) (quality_check : Quality) (metadata : option MetaArg)
  (now : string) : AddResult * Engine :=
  let count := List.length (encodings_of self name) in
  let photo_filename := (name ++ "_" ++ str_nat count ++ ".jpg")%string in
  let photo_path :=
    (known_faces_dir ++ "/photos/" ++ photo_filename)%string in
  match jpeg image with
  | None => (AddFailed, self)
  | Some bytes =>
    let files := dict_set photo_path bytes (photo_files self) in
    let person_metadata :=
      mkMetadata name now (Some [photo_path]) None
        (match metadata with
         | Some m => match arg_access_level m with
                     | Some a => a | None => "standard"%string end
         | None => "standard"%string end)
        (match metadata with
         | Some m => match arg_notes m with
                     | Some n => n | None => EmptyString end
         | None => EmptyString end)
        (Some count) (Some (quality_score quality_check))
        (Some (issues quality_check)) None in
    let updated :=
      match dict_get name (known_faces_metadata self) with
      | Some existing_metadata =>
        match photo_paths existing_metadata with
        | Some paths =>
          Some (dict_set name
                  (mkMetadata (md_name existing_metadata)
                     (added_date existing_metadata)
                     (Some (paths ++ [photo_path]))
                     (md_photo_path existing_metadata)
                     (access_level existing_metadata)
                     (notes existing_metadata)
                     (Some count)
                     (md_quality_score existing_metadata)
                     (quality_issues existing_metadata)
                     (Some now))
                  (known_faces_metadata self))
        | None => None      (* KeyError: no "photo_paths" in the entry *)
        end
      | None =>
        Some (dict_set name person_metadata (known_faces_metadata self))
      end in
    match updated with
    | None =>
      (AddFailed, set_metadata_and_files self (known_faces_metadata self) files)
    | Some md =>
      let self' := set_metadata_and_files self md files in
      (AddOk (List.length (person_encodings self')) count face_count
         (quality_score quality_check) (issues quality_check),
       self')
    end
  end.

(** [add_known_person].  [photo] is the decoded picture ([None] when
    [Image.open] raises) and [now] the clock reading. *)
Definition add_known_person (self : Engine) (name : string)
  (photo : option Image) (metadata : option MetaArg) (now : string)
  : AddResult * Engine :=
  match photo with
  | None => (AddFailed, self)
  | Some image =>
    match detect image with
    | [] => (AddNoFace, self)
    | first :: rest =>
      let face_count := List.length (first :: rest) in
      let face_location := choose_face first rest in
      match _validate_face_quality image face_location with
      | None => (AddFailed, self)
      | Some quality_check =>
        if quality_score quality_check <? 0.6
        then (AddLowQuality (quality_score quality_check)
                (issues quality_check), self)
        else
          match _extract_face_encoding image face_location with
          | None => (AddNoFeatures face_count, self)
          | Some face_encoding =>
            let outlier :=
              match dict_get name (person_encodings self) with
              | Some existing_encodings =>
                let distances :=
                  face_distance existing_encodings face_encoding in
                let avg_distance := np.mean distances in
                if 0.7 <? avg_distance then Some avg_distance else None
              | None => None
              end in
            match outlier with
            | Some avg_distance => (AddOutlier avg_distance, self)
            | None =>
              match store_encoding self name face_encoding with
              | inr interrupted => (AddFailed, interrupted)
              | inl self1 =>
                record_photo self1 name image face_count quality_check
                  metadata now
              end
            end
          end
      end
    end
  end.

(** *** Recognition *)

(** The state of the loop over [person_encodings.keys()]:
    [(best_scores, best_similarity, best_match_name, best_metadata)]. *)
Definition Best : Type :=
  (list (Q * string) * Q * string * option Metadata)%type.

Definition score_step (self : Engine) (face_encoding : Embedding)
  (dynamic_threshold : Q) (acc : Best) (person_name : string) : Best :=
  let '(best_scores, best_similarity, best_match_name, best_metadata) := acc in
  let similarity := _calculate_similarity_score self face_encoding person_name in
  let best_scores := best_scores ++ [(similarity, person_name)] in
  if best_similarity <? similarity then
    if dynamic_threshold <=? similarity
    then (best_scores, similarity, person_name,
          dict_get person_name (known_faces_metadata self))
    else (best_scores, similarity, best_match_name, best_metadata)
  else (best_scores, best_similarity, best_match_name, best_metadata).

Definition score_all (self : Engine) (face_encoding : Embedding)
  (dynamic_threshold : Q) : Best :=
  fold_left (score_step self face_encoding dynamic_threshold)
    (dict_keys (person_encodings self))
    ([], 0.0, Unknown, None).

(** Layers 1 and 2 of the validation; returns
    [(validation_passed, best_similarity, best_match_name, best_metadata)]. *)
Definition validate_layers12 (quality_check : Quality) (dynamic_threshold : Q)
  (b : Best) : bool * Q * string * option Metadata :=
  let '(best_scores, best_similarity, best_match_name, best_metadata) := b in
  if best_similarity <? dynamic_threshold
  then (false, best_similarity, best_match_name, best_metadata)
  else
    match sort_desc best_scores with
    | (first_score, _) :: (second_score, _) :: _ =>
      let margin := first_score - second_score in
      let required_margin :=
        if 0.7 <? quality_score quality_check then 0.12 else 0.18 in
      if (margin <? required_margin) && (first_score <? 0.85)
      then (false, 0.0, Unknown, None)
      else (true, best_similarity, best_match_name, best_metadata)
    | _ => (true, best_similarity, best_match_name, best_metadata)
    end.

(** Layer 3: quality-based adjustment and final check. *)
Definition validate_layer3 (quality_check : Quality) (dynamic_threshold : Q)
  (v : bool * Q * string * option Metadata) : Q * string * option Metadata :=
  let '(validation_passed, best_similarity, best_match_name, best_metadata) := v in
  if validation_passed && negb (String.eqb best_match_name Unknown) then
    let best_similarity :=
      if 0.8 <? quality_score quality_check
      then Qmin 1.0 (best_similarity * 1.02)
      else if quality_score quality_check <? 0.5
      then best_similarity * 0.9
      else best_similarity in
    if best_similarity <? dynamic_threshold
    then (0.0, Unknown, None)
    else (best_similarity, best_match_name, best_metadata)
  else (best_similarity, best_match_name, best_metadata).

(** The decision for one face that passed the quality gate:
    [(best_similarity, best_match_name, best_metadata)] as they stand
    when the result entry is built. *)
Definition decide_face (self : Engine) (face_encoding : Embedding)
  (quality_check : Quality) : Q * string * option Metadata :=
  let dynamic_threshold := _get_dynamic_threshold self quality_check in
  let '(best_similarity, best_match_name, best_metadata) :=
    match person_encodings self with
    | [] => (0.0, Unknown, None)
    | _ :: _ =>
      validate_layer3 quality_check dynamic_threshold
        (validate_layers12 quality_check dynamic_threshold
           (score_all self face_encoding dynamic_threshold))
    end in
  let best_similarity :=
    if negb (String.eqb best_match_name Unknown)
    then _apply_temporal_consistency self best_match_name best_similarity
    else best_similarity in
  (best_similarity, best_match_name, best_metadata).

(** The body of the loop over the detected faces.  [None] is an
    exception, [Some (None, _)] a face skipped for its quality. *)
Definition recognize_one (self : Engine) (image : Image)
  (face_encoding : Embedding) (face_location : Box)
  : option (option Outcome * Engine) :=
  match _validate_face_quality image face_location with
  | None => None
  | Some quality_check =>
    if quality_score quality_check <? 0.3 then Some (None, self) else
    let '(best_similarity, best_match_name, best_metadata) :=
      decide_face self face_encoding quality_check in
    let access :=
      match best_metadata with
      | Some m => access_level m
      | None => if String.eqb best_match_name Unknown
                then "none"%string else "standard"%string
      end in
    let outcome :=
      mkOutcome best_match_name best_similarity face_location access
        best_metadata (quality_score quality_check) (issues quality_check)
        (_get_dynamic_threshold self quality_check)
        (brightness quality_check, contrast quality_check,
         sharpness quality_check) in
    Some (Some outcome, _update_recognition_history self best_match_name)
  end.

Fixpoint recognize_loop (self : Engine) (image : Image)
  (faces : list (Embedding * Box)) (recognized_persons : list Outcome)
  : option (list Outcome) * Engine :=
  match faces with
  | [] => (Some recognized_persons, self)
  | (face_encoding, face_location) :: rest =>
    match recognize_one self image face_encoding face_location with
    | None => (None, self)
    | Some (None, self') => recognize_loop self' image rest recognized_persons
    | Some (Some o, self') =>
      recognize_loop self' image rest (recognized_persons ++ [o])
    end
  end.

(** [recognize_face].  [frame] is the preprocessed picture ([None] when
    decoding, preprocessing, detection or encoding raises); the faces
    are its detected locations with their encodings. *)
Definition recognize_face (self : Engine) (frame : option Image)
  (face_encodings : list Embedding) : RecognizeResult * Engine :=
  match frame with
  | None => (RecFailed, self)
  | Some image =>
    match detect image with
    | [] => (RecNoFaces, self)
    | face_locations =>
      match recognize_loop self image
              (combine face_encodings face_locations) [] with
      | (None, self') => (RecFailed, self')
      | (Some recognized_persons, self') =>
        (RecOk (List.length face_locations) recognized_persons, self')
      end
    end
  end.

End Engine.

(** ** Removal, listing, reference photo *)

(** The loop [for idx in reversed(indices_to_remove)] deleting position
    [idx] of both lists; [inr] carries the lists reached when a deletion
    raises. *)
Fixpoint delete_indices (rev_indices : list nat)
  (encodings : list Embedding) (names : list string)
  : (list Embedding * list string) + (list Embedding * list string) :=
  match rev_indices with
  | [] => inl (encodings, names)
  | idx :: rest =>
    match list_del idx encodings with
    | None => inr (encodings, names)
    | Some encodings' =>
      match list_del idx names with
      | None => inr (encodings', names)
      | Some names' => delete_indices rest encodings' names'
      end
    end
  end.

(** [Path(photo_path).unlink(missing_ok=True)] over the photo paths; a
    failing unlink is logged and skipped. *)
Fixpoint unlink_all (unlink_fails : string -> bool) (paths : list string)
  (files : dict string) : dict string :=
  match paths with
  | [] => files
  | p :: rest =>
    unlink_all unlink_fails rest
      (if unlink_fails p then files else dict_del p files)
  end.

(** [remove_known_person] *)
Definition remove_known_person (self : Engine) (unlink_fails : string -> bool)
  (name : string) : RemoveResult * Engine :=
  if negb (dict_mem name (person_encodings self)) then (RemoveNotFound, self)
  else
    let indices_to_remove := indices_of name 0 (known_face_names self) in
    match delete_indices (rev indices_to_remove)
            (known_face_encodings self) (known_face_names self) with
    | inr (encodings, names) =>
      (RemoveFailed,
       mkEngine encodings names (person_encodings self)
         (known_faces_metadata self) (recognition_history self)
         (confidence_threshold self) (photo_files self))
    | inl (encodings, names) =>
      let persons := dict_del name (person_encodings self) in
      let '(md, files) :=
        match dict_get name (known_faces_metadata self) with
        | Some m =>
          (dict_del name (known_faces_metadata self),
           unlink_all unlink_fails (photo_paths_of m) (photo_files self))
        | None => (known_faces_metadata self, photo_files self)
        end in
      (RemoveOk (List.length persons),
       mkEngine encodings names persons md (recognition_history self)
         (confidence_threshold self) files)
    end.

(** [get_person_photo] *)
Definition get_person_photo (self : Engine) (name : string) : option string :=
  match dict_get name (known_faces_metadata self) with
  | None => None
  | Some m =>
    match rev (photo_paths_of m) with
    | [] => None
    | photo_path :: _ => dict_get photo_path (photo_files self)
    end
  end.

(** [list_known_persons]: the [persons] list. *)
Definition list_known_persons (self : Engine) : list PersonInfo :=
  map (fun '(person_name, encodings) =>
         match dict_get person_name (known_faces_metadata self) with
         | Some m =>
           mkPersonInfo person_name (access_level m) (added_date m) (notes m)
             (List.length encodings) (List.length (photo_paths_of m))
             (match md_quality_score m with Some score => score | None => 0.0 end)
             (0 <? List.length (photo_paths_of m))%nat
         | None =>
           mkPersonInfo person_name "standard" "Unknown" EmptyString
             (List.length encodings) 0 0.0 false
         end)
      (person_encodings self).

(** ** A concrete distance for worked examples

    Embeddings that differ only in their first coordinate: their
    Euclidean distance is the absolute difference of that coordinate. *)
Definition axis_distance (a b : Embedding) : Q :=
  Qabs (hd 0 a - hd 0 b).

(** ** Quantities named by the recognition rules *)

(** The list [best_scores] once the loop over the identities is done. *)
Definition all_scores (distance_between : Embedding -> Embedding -> Q)
  (self : Engine) (face_encoding : Embedding) : list (Q * string) :=
  map (fun person_name =>
         (_calculate_similarity_score distance_between self face_encoding
            person_name, person_name))
      (dict_keys (person_encodings self)).

(** [best_scores[0][0]] and [best_scores[1][0]] after the descending sort. *)
Definition first_score (distance_between : Embedding -> Embedding -> Q)
  (self : Engine) (face_encoding : Embedding) : Q :=
  fst (nth 0 (sort_desc (all_scores distance_between self face_encoding))
         (0, EmptyString)).

Definition second_score (distance_between : Embedding -> Embedding -> Q)
  (self : Engine) (face_encoding : Embedding) : Q :=
  fst (nth 1 (sort_desc (all_scores distance_between self face_encoding))
         (0, EmptyString)).

(** [required_margin] of the ambiguity check. *)
Definition required_margin (quality_check : Quality) : Q :=
  if 0.7 <? quality_score quality_check then 0.12 else 0.18.

(** ** Worked inputs *)

(** A 128-dimensional embedding lying on the first axis. *)
Definition embedding_on_axis (x : Q) : Embedding := x :: repeat 0 127.

(** A 640x480 picture showing one sharp, well-lit face in the box
    [face], from which the encoder extracts [e]; [saved] is the outcome of
    saving the picture. *)
Definition picture (face : Box) (e : Embedding) (saved : option string)
  : Image :=
  mkImage 480 640 [face]
    (fun _ => Some (mkPixelStats 128 50 150))
    (fun _ => Some e)
    saved.

(** A face of 200x200 pixels, and one of 80x80 pixels, both away from
    the borders. *)
Definition large_face : Box := (100, 400, 300, 200)%Z.
Definition medium_face : Box := (100, 280, 180, 200)%Z.

(** Enrolling the embedding [x] on the axis from a good picture that
    saves correctly. *)
Definition enroll (self : Engine) (name : string) (x : Q)
  : AddResult * Engine :=
  add_known_person axis_distance self name
    (Some (picture large_face (embedding_on_axis x) (Some "jpeg"%string)))
    None "2024-01-01T00:00:00"%string.

(** Enrolling a sequence of embeddings for one name; the results are
    collected in order. *)
Fixpoint enroll_all (self : Engine) (name : string) (xs : list Q)
  : list AddResult * Engine :=
  match xs with
  | [] => ([], self)
  | x :: rest =>
    let '(r, self1) := enroll self name x in
    let '(rs, self2) := enroll_all self1 name rest in
    (r :: rs, self2)
  end.

(** Two identities with one reference each, at distances 0.41 and 0.45
    from the origin of the axis. *)
Definition two_identities : Engine :=
  snd (enroll (snd (enroll new_engine "Alice" 0.41)) "Bob" 0.45).

(** One identity with a single reference at the origin of the axis. *)
Definition one_identity : Engine := snd (enroll new_engine "Alice" 0).

(** The entries of the flat lists that belong to another name. *)
Definition other_than (name : string) (entry : Embedding * string) : bool :=
  negb (String.eqb (snd entry) name).

(** One identity enrolled from two pictures, the older at 0, the newer
    at 0.2. *)
Definition two_references : Engine :=
  snd (enroll_all new_engine "Alice" [0; 0.2]).

(** One identity enrolled from two nearly identical pictures. *)
Definition twin_references : Engine :=
  snd (enroll_all new_engine "Alice" [0; 0.01]).

(** Six successive enrollments of one name, and the first five of them. *)
Definition five_enrollments : list AddResult * Engine :=
  enroll_all new_engine "Alice" [0; 0.01; 0.02; 0.03; 0.04].

Definition six_enrollments : list AddResult * Engine :=
  enroll_all new_engine "Alice" [0; 0.01; 0.02; 0.03; 0.04; 0.05].

(** ** Invariants of the engine state *)

(** The embeddings that the two flat lists hold for [name], in order. *)
Definition flat_of (name : string) (encodings : list Embedding)
  (names : list string) : list Embedding :=
  map fst (filter (fun entry => String.eqb (snd entry) name)
             (combine encodings names)).

(** The flat lists and [person_encodings] hold the same embeddings, in
    the same order, for every name. *)
Definition stores_agree (self : Engine) : Prop :=
  List.length (known_face_encodings self) = List.length (known_face_names self) /\
  forall name,
    flat_of name (known_face_encodings self) (known_face_names self)
    = encodings_of self name.

(** Every identity holds between 1 and [max_faces_per_person]
    embeddings. *)
Definition within_capacity (self : Engine) : Prop :=
  Forall (fun entry =>
            (1 <= List.length (snd entry) <= max_faces_per_person)%nat)
         (person_encodings self).

(** An engine that differs from [self] by its recognition history
    only. *)
Definition same_store (self other : Engine) : Prop :=
  other = set_history self (recognition_history other).

(** ** Legacy storage

    The conversion of [_load_legacy_format].  [legacy] is the content of
    the two legacy files ([None] when one of them is missing or cannot be
    read), [legacy_metadata] the content of the metadata file when it
    exists: entries as the earlier engine wrote them, with [photo_path]
    and without [photo_paths], or entries of the backup this engine
    writes. *)

(** [self.person_encodings[name].append(encoding)] on a
    [defaultdict(list)]. *)
Definition dict_append (name : string) (encoding : Embedding)
  (d : dict (list Embedding)) : dict (list Embedding) :=
  dict_set name
    (match dict_get name d with Some l => l | None => [] end ++ [encoding]) d.

(** The loop [for encoding, name in zip(encodings, names)]. *)
Definition group_by_person (encodings : list Embedding) (names : list string)
  (d : dict (list Embedding)) : dict (list Embedding) :=
  fold_left (fun d '(encoding, name) => dict_append name encoding d)
    (combine encodings names) d.

(** [_load_legacy_format] *)
Definition _load_legacy_format (self : Engine)
  (legacy : option (list Embedding * list string))
  (legacy_metadata : option (dict Metadata)) : Engine :=
  match legacy with
  | None => self
  | Some (encodings, names) =>
    mkEngine encodings names
      (group_by_person encodings names (person_encodings self))
      (match legacy_metadata with
       | Some md => md
       | None => known_faces_metadata self
       end)
      (recognition_history self) (confidence_threshold self)
      (photo_files self)
  end.

(** ** The doorbell callers ([api/face_routes.py])

    [doorbell_ring] and [handle_doorbell_recognition] keep the outcomes
    whose name is not "Unknown" and whose access level is one of the three
    known levels, and act for the first of them; [doorbell_ring] does so
    only when [auto_open] is set. *)

Definition authorized (p : Outcome) : bool :=
  negb (String.eqb (name p) "Unknown") &&
  existsb (String.eqb (out_access_level p)) ["standard"; "admin"; "guest"]%string.

Definition authorized_persons (recognized_persons : list Outcome)
  : list Outcome :=
  filter authorized recognized_persons.

(** The person for whom [doorbell_ring] asks the door to open. *)
Definition doorbell_person (recognition_result : RecognizeResult)
  (auto_open : bool) : option Outcome :=
  match recognition_result with
  | RecFailed => None
  | RecNoFaces => None
  | RecOk _ recognized_persons =>
    match authorized_persons recognized_persons with
    | person :: _ => if auto_open then Some person else None
    | [] => None
    end
  end.

(** The person for whom [handle_doorbell_recognition] asks the door to
    open, when it is called on the [recognized_persons] of a recognition
    (lines 109 and 518): the first authorized one, without any other
    condition. *)
Definition handle_doorbell_person (recognized_persons : list Outcome)
  : option Outcome :=
  match authorized_persons recognized_persons with
  | person :: _ => Some person
  | [] => None
  end.

(** ** Predicates used to state what the functions maintain *)

(** What the penalties of [_validate_face_quality] maintain on
    [(quality_score, issues)]: the score stays between [lo] and [hi], it
    is 1 exactly as long as no issue is tagged, and it is at most [c1],
    [c2], [c3] once 1, 2, 3 issues are tagged. *)
Definition quality_inv (lo hi c1 c2 c3 : Q) (acc : Q * list string) : Prop :=
  lo <= fst acc /\ fst acc <= hi /\
  ((snd acc = [] /\ fst acc == 1) \/ (snd acc <> [] /\ fst acc <= 0.9)) /\
  ((1 <= List.length (snd acc))%nat -> fst acc <= c1) /\
  ((2 <= List.length (snd acc))%nat -> fst acc <= c2) /\
  ((3 <= List.length (snd acc))%nat -> fst acc <= c3).

(** The first test of [_validate_face_quality]:
    [face_width < 60 or face_height < 60]. *)
Definition is_small (loc : Box) : bool :=
  let '(top, right_, bottom, left_) := loc in
  ((right_ - left_ <? 60) || (bottom - top <? 60))%Z.

(** What the loop over the identities maintains on
    [(best_scores, best_similarity, best_match_name, best_metadata)]: the
    best similarity is never negative and is 0.0 or the score of an
    identity; either no name was chosen, or the chosen name is an identity
    whose score is the best similarity and reaches the threshold, with
    that identity's metadata. *)
Definition best_inv (dist : Embedding -> Embedding -> Q) (self : Engine)
  (enc : Embedding) (thr : Q) (acc : Best) : Prop :=
  let '(_, sim, nm, md) := acc in
  0 <= sim /\
  (sim = 0.0 \/
   exists k, In k (dict_keys (person_encodings self)) /\
             sim = _calculate_similarity_score dist self enc k) /\
  ((nm = Unknown /\ md = None /\ (sim = 0.0 \/ sim < thr)) \/
   (In nm (dict_keys (person_encodings self)) /\
    sim = _calculate_similarity_score dist self enc nm /\
    thr <= sim /\
    md = dict_get nm (known_faces_metadata self))).

(** What [decide_face] returns. *)
Definition decision_ok (dist : Embedding -> Embedding -> Q) (self : Engine)
  (enc : Embedding) (thr : Q) (r : Q * string * option Metadata) : Prop :=
  let '(s, n, m) := r in
  0 <= s /\
  ((forall k, _calculate_similarity_score dist self enc k <= 1) -> s <= 1) /\
  (n = Unknown \/
   (In n (dict_keys (person_encodings self)) /\
    thr <= _calculate_similarity_score dist self enc n /\
    thr <= s /\
    m = dict_get n (known_faces_metadata self))) /\
  (~ In Unknown (dict_keys (person_encodings self)) -> n = Unknown ->
   m = None /\ s < thr).

(** A frame showing one large, sharp face whose encoding lies at the
    origin of the axis. *)
Definition doorstep_frame : option Image :=
  Some (picture large_face (embedding_on_axis 0) None).

(** The list stored for [name] once [store_encoding] is done. *)
Definition stored_list (self : Engine) (name : string) (e : Embedding)
  : list Embedding :=
  match dict_get name (person_encodings self) with
  | None => [e]
  | Some existing =>
    if (max_faces_per_person <=? List.length existing)%nat
    then e :: tl existing
    else existing ++ [e]
  end.

(** The size of a face location, as [add_known_person] computes it to
    choose among several faces. *)
Definition area (face : Box) : Z :=
  let '(top, right_, bottom, left_) := face in
  ((right_ - left_) * (bottom - top))%Z.

(** The path under which [add_known_person] saves the photo of [name]
    when [count] embeddings are stored for it:
    [known_faces_dir / "photos" / f"{name}_{count}.jpg"]. *)
Definition photo_path_for (name : string) (count : nat) : string :=
  (known_faces_dir ++ "/photos/" ++ name ++ "_" ++ str_nat count ++ ".jpg")%string.

(** An engine that took over one identity of the earlier engine:
    one encoding, and the metadata entry as that engine wrote it. *)
Definition migrated_engine : Engine :=
  _load_legacy_format new_engine
    (Some ([embedding_on_axis 0], ["Bob"%string]))
    (Some [("Bob"%string,
            mkMetadata "Bob" "2023-06-01T00:00:00" None
              (Some "known_faces/Bob.jpg"%string) "standard" EmptyString
              None None None None)]).


(** * Properties *)

Lemma Qleb_true x y : (x <=? y) = true <-> x <= y.
Proof. apply Qle_bool_iff. Qed.

Lemma Qleb_false x y : (x <=? y) = false <-> y < x.
Proof.
  unfold Qleb. split; intro H.
  - apply Qnot_le_lt. intro K. apply Qle_bool_iff in K. congruence.
  - destruct (Qle_bool x y) eqn:E; [|reflexivity].
    apply Qle_bool_iff in E. exfalso. apply (Qlt_not_le _ _ H E).
Qed.

Lemma Qltb_true x y : (x <? y) = true <-> x < y.
Proof.
  unfold Qltb. rewrite negb_true_iff. apply (Qleb_false y x).
Qed.

Lemma Qltb_false x y : (x <? y) = false <-> y <= x.
Proof.
  unfold Qltb. rewrite negb_false_iff. apply Qle_bool_iff.
Qed.

(** Case analysis on a float comparison, leaving the order fact. *)
Ltac qcase x y :=
  let E := fresh "E" in
  destruct (x <=? y) eqn:E;
  [ apply Qleb_true in E | apply Qleb_false in E ].

(** Division by the band widths, as multiplications. *)
Lemma div_025 x : x / 0.25 == x * 4.
Proof. unfold Qdiv. setoid_replace (/ 0.25) with 4 by reflexivity. reflexivity. Qed.
Lemma div_01 x : x / 0.1 == x * 10.
Proof. unfold Qdiv. setoid_replace (/ 0.1) with 10 by reflexivity. reflexivity. Qed.
Lemma div_015 x : x / 0.15 == x * (20 # 3).
Proof. unfold Qdiv. setoid_replace (/ 0.15) with (20 # 3) by reflexivity. reflexivity. Qed.
Lemma div_04 x : x / 0.4 == x * (5 # 2).
Proof. unfold Qdiv. setoid_replace (/ 0.4) with (5 # 2) by reflexivity. reflexivity. Qed.

Ltac undiv := rewrite ?div_025, ?div_01, ?div_015, ?div_04.

Lemma band5_cases d :
  (band5 d == 0 /\ 0.2 - ((d - 0.6) * (5 # 2)) * 0.2 <= 0) \/
  (band5 d == 0.2 - ((d - 0.6) * (5 # 2)) * 0.2 /\
   0 <= 0.2 - ((d - 0.6) * (5 # 2)) * 0.2).
Proof.
  unfold band5. rewrite div_04.
  apply Q.max_case_strong.
  - intros x y Hxy [[H1 H2]|[H1 H2]]; [left|right]; rewrite <- Hxy; auto.
  - intro H. left. split; [reflexivity | lra].
  - intro H. right. split; [reflexivity | lra].
Qed.

Lemma distance_to_similarity_range d :
  0 <= d -> 0 <= _distance_to_similarity d <= 1.
Proof.
  intro Hd. unfold _distance_to_similarity.
  qcase d 0.25; [undiv; lra|].
  qcase d 0.35; [undiv; lra|].
  qcase d 0.45; [undiv; lra|].
  qcase d 0.6; [undiv; lra|].
  fold (band5 d). destruct (band5_cases d) as [[-> H]|[-> H]]; lra.
Qed.

Lemma distance_to_similarity_band1 d :
  d <= 0.25 -> _distance_to_similarity d == band1 d.
Proof.
  intro H. unfold _distance_to_similarity, band1.
  apply Qleb_true in H. rewrite H. reflexivity.
Qed.

Lemma distance_to_similarity_band2 d :
  0.25 < d -> d <= 0.35 -> _distance_to_similarity d == band2 d.
Proof.
  intros H1 H2. unfold _distance_to_similarity, band2.
  apply Qleb_false in H1. apply Qleb_true in H2. rewrite H1, H2. reflexivity.
Qed.

Lemma distance_to_similarity_band3 d :
  0.35 < d -> d <= 0.45 -> _distance_to_similarity d == band3 d.
Proof.
  intros H1 H2. unfold _distance_to_similarity, band3.
  assert (H0 : 0.25 < d) by lra.
  apply Qleb_false in H0, H1. apply Qleb_true in H2.
  rewrite H0, H1, H2. reflexivity.
Qed.

Lemma distance_to_similarity_band4 d :
  0.45 < d -> d <= 0.6 -> _distance_to_similarity d == band4 d.
Proof.
  intros H1 H2. unfold _distance_to_similarity, band4.
  assert (H0 : 0.25 < d) by lra. assert (H00 : 0.35 < d) by lra.
  apply Qleb_false in H0, H00, H1. apply Qleb_true in H2.
  rewrite H0, H00, H1, H2. reflexivity.
Qed.

Lemma distance_to_similarity_band5 d :
  0.6 < d -> _distance_to_similarity d == band5 d.
Proof.
  intros H1. unfold _distance_to_similarity, band5.
  assert (H0 : 0.25 < d) by lra. assert (H00 : 0.35 < d) by lra.
  assert (H000 : 0.45 < d) by lra.
  apply Qleb_false in H0, H00, H000, H1.
  rewrite H0, H00, H000, H1. reflexivity.
Qed.

(** The value of the mapping, band by band, as linear constraints. *)
Lemma distance_to_similarity_cases d :
  (d <= 0.25 /\ _distance_to_similarity d == 1 - d * 4 * 0.1) \/
  (0.25 < d /\ d <= 0.35 /\
   _distance_to_similarity d == 0.9 - (d - 0.25) * 10 * 0.15) \/
  (0.35 < d /\ d <= 0.45 /\
   _distance_to_similarity d == 0.75 - (d - 0.35) * 10 * 0.25) \/
  (0.45 < d /\ d <= 0.6 /\
   _distance_to_similarity d == 0.5 - (d - 0.45) * (20 # 3) * 0.3) \/
  (0.6 < d /\ d <= 1 /\
   _distance_to_similarity d == 0.2 - (d - 0.6) * (5 # 2) * 0.2) \/
  (1 <= d /\ _distance_to_similarity d == 0).
Proof.
  qcase d 0.25.
  { left. split; [assumption|].
    rewrite distance_to_similarity_band1 by assumption.
    unfold band1. undiv. lra. }
  qcase d 0.35.
  { right; left. repeat split; try assumption.
    rewrite distance_to_similarity_band2 by assumption.
    unfold band2. undiv. lra. }
  qcase d 0.45.
  { right; right; left. repeat split; try assumption.
    rewrite distance_to_similarity_band3 by assumption.
    unfold band3. undiv. lra. }
  qcase d 0.6.
  { right; right; right; left. repeat split; try assumption.
    rewrite distance_to_similarity_band4 by assumption.
    unfold band4. undiv. lra. }
  right; right; right; right.
  rewrite distance_to_similarity_band5 by assumption.
  destruct (band5_cases d) as [[-> H]|[-> H]].
  - right. split; [lra | reflexivity].
  - left. repeat split; try assumption; lra.
Qed.

Lemma distance_to_similarity_monotone d1 d2 :
  d1 <= d2 -> _distance_to_similarity d2 <= _distance_to_similarity d1.
Proof.
  intro H.
  destruct (distance_to_similarity_cases d1)
    as [[? ->]|[[? [? ->]]|[[? [? ->]]|[[? [? ->]]|[[? [? ->]]|[? ->]]]]]];
  destruct (distance_to_similarity_cases d2)
    as [[? ->]|[[? [? ->]]|[[? [? ->]]|[[? [? ->]]|[[? [? ->]]|[? ->]]]]]];
  lra.
Qed.

(** The mapping is Lipschitz: between two distances the similarity falls
    by at most 2.5 times their difference (the slope of the steepest
    band, 0.35 to 0.45), so it has no jump anywhere. *)
Lemma distance_to_similarity_lipschitz d1 d2 :
  d1 <= d2 ->
  _distance_to_similarity d1 - _distance_to_similarity d2 <= 2.5 * (d2 - d1).
Proof.
  intro H.
  destruct (distance_to_similarity_cases d1)
    as [[? ->]|[[? [? ->]]|[[? [? ->]]|[[? [? ->]]|[[? [? ->]]|[? ->]]]]]];
  destruct (distance_to_similarity_cases d2)
    as [[? ->]|[[? [? ->]]|[[? [? ->]]|[[? [? ->]]|[[? [? ->]]|[? ->]]]]]];
  lra.
Qed.

(** C10.  For a non-negative distance the banded mapping
    [_distance_to_similarity] returns a value in [0,1]; it is monotone
    non-increasing, so a strictly closer probe never gets a strictly lower
    similarity; on each band it is the formula of that band; the formulas
    of neighbouring bands agree at the breakpoints 0.25, 0.35, 0.45 and
    0.6; and it is continuous everywhere, the breakpoints included: from
    [d1] to [d2] the similarity falls by at most [2.5 * (d2 - d1)]. *)
Theorem distance_to_similarity_banded (d1 d2 : Q) :
  0 <= d1 -> d1 <= d2 ->
  (0 <= _distance_to_similarity d1 <= 1) /\
  _distance_to_similarity d2 <= _distance_to_similarity d1 /\
  (d1 < d2 -> ~ _distance_to_similarity d1 < _distance_to_similarity d2) /\
  (d2 <= 0.25 -> _distance_to_similarity d2 == band1 d2) /\
  (0.25 < d2 -> d2 <= 0.35 -> _distance_to_similarity d2 == band2 d2) /\
  (0.35 < d2 -> d2 <= 0.45 -> _distance_to_similarity d2 == band3 d2) /\
  (0.45 < d2 -> d2 <= 0.6 -> _distance_to_similarity d2 == band4 d2) /\
  (0.6 < d2 -> _distance_to_similarity d2 == band5 d2) /\
  (_distance_to_similarity 0.25 == band1 0.25 /\ band1 0.25 == band2 0.25) /\
  (_distance_to_similarity 0.35 == band2 0.35 /\ band2 0.35 == band3 0.35) /\
  (_distance_to_similarity 0.45 == band3 0.45 /\ band3 0.45 == band4 0.45) /\
  (_distance_to_similarity 0.6 == band4 0.6 /\ band4 0.6 == band5 0.6) /\
  _distance_to_similarity d1 - _distance_to_similarity d2 <= 2.5 * (d2 - d1).
Proof.
  intros H0 H12.
  pose proof (distance_to_similarity_monotone d1 d2 H12) as Hm.
  split; [apply distance_to_similarity_range; assumption|].
  split; [assumption|].
  split; [intros _ K; apply (Qlt_not_le _ _ K Hm)|].
  split; [apply distance_to_similarity_band1|].
  split; [apply distance_to_similarity_band2|].
  split; [apply distance_to_similarity_band3|].
  split; [apply distance_to_similarity_band4|].
  split; [apply distance_to_similarity_band5|].
  split; [split; reflexivity|].
  split; [split; reflexivity|].
  split; [split; reflexivity|].
  split; [split; reflexivity|].
  apply distance_to_similarity_lipschitz. exact H12.
Qed.

Lemma distance_to_similarity_banded_witness :
  0 <= 0.3 /\ 0.3 <= 0.5 /\
  _distance_to_similarity 0.5 <= _distance_to_similarity 0.3 /\
  _distance_to_similarity 0.5 == band4 0.5 /\
  _distance_to_similarity 0.3 - _distance_to_similarity 0.5 <= 2.5 * (0.5 - 0.3).
Proof.
  assert (H0 : 0 <= 0.3) by lra.
  assert (H12 : 0.3 <= 0.5) by lra.
  split; [exact H0|]. split; [exact H12|].
  destruct (distance_to_similarity_banded 0.3 0.5 H0 H12)
    as (_ & Hmono & _ & _ & _ & _ & Hband4 & _ & _ & _ & _ & _ & Hlip).
  split; [exact Hmono|]. split; [apply Hband4; lra | exact Hlip].
Defined.

(** ** Dynamic threshold *)

(** C2.  For every base threshold in [0.1, 1.0] and every quality report,
    the effective threshold of [_get_dynamic_threshold] lies within
    [0.45, 0.75]. *)
Theorem dynamic_threshold_bounds (self : Engine) (face_quality : Quality) :
  0.1 <= confidence_threshold self <= 1.0 ->
  0.45 <= _get_dynamic_threshold self face_quality <= 0.75.
Proof.
  intros _. unfold _get_dynamic_threshold. simpl negb. cbv iota.
  cbv zeta. unfold min_threshold, max_threshold.
  split.
  - apply Q.le_max_l.
  - apply Q.max_lub; [lra | apply Q.le_min_l].
Qed.

Lemma dynamic_threshold_bounds_witness :
  0.1 <= confidence_threshold new_engine <= 1.0 /\
  0.45 <= _get_dynamic_threshold new_engine
            (mkQuality 0.4 [] false 30 20 60) <= 0.75.
Proof.
  assert (H : 0.1 <= confidence_threshold new_engine <= 1.0)
    by (simpl; unfold default_confidence_threshold; lra).
  split; [exact H|].
  exact (dynamic_threshold_bounds new_engine (mkQuality 0.4 [] false 30 20 60) H).
Defined.

(** ** Temporal consistency *)

(** The count made by the generator expression is the number of
    occurrences of the name. *)
Lemma count_name_occ X l : count_name X l = count_occ string_dec l X.
Proof.
  unfold count_name. induction l as [|y t IH]; simpl; [reflexivity|].
  destruct (string_dec y X) as [->|Hne].
  - rewrite String.eqb_refl. simpl. rewrite IH. reflexivity.
  - destruct (String.eqb X y) eqn:E; [|exact IH].
    apply String.eqb_eq in E. congruence.
Qed.

(** C8.  For a matched name [X] and a confidence [c], with [count] the
    number of occurrences of [X] among the last 5 history entries, the
    temporal step returns [c] unchanged when [count < 2], and
    [min(1.0, c + min(0.05*count, 0.15))] otherwise; the result is at
    least [c] and at most 1.0 when [c <= 1], and whenever the bonus is
    applied it is at most 1.0. *)
Theorem temporal_consistency_bonus (self : Engine) (X : string) (c : Q) :
  X <> Unknown ->
  let history := recognition_history self in
  let count :=
    count_occ string_dec (skipn (List.length history - 5) history) X in
  let r := _apply_temporal_consistency self X c in
  ((count < 2)%nat -> r = c) /\
  ((2 <= count)%nat ->
   r == Qmin 1.0 (c + Qmin (0.05 * inject_Z (Z.of_nat count)) 0.15) /\ r <= 1.0) /\
  (c <= 1.0 -> c <= r <= 1.0).
Proof.
  intros HX history count r.
  assert (EX : String.eqb X Unknown = false) by (apply String.eqb_neq; exact HX).
  assert (Hb : 0 <= Qmin (temporal_bonus * inject_Z (Z.of_nat count)) 0.15).
  { apply Q.min_glb; [|lra].
    apply Qmult_le_0_compat; [unfold temporal_bonus; lra|].
    change 0 with (inject_Z 0). rewrite <- Zle_Qle. lia. }
  assert (Hr : r = if (2 <=? count)%nat
                   then Qmin 1.0 (c + Qmin (temporal_bonus * inject_Z (Z.of_nat count)) 0.15)
                   else c).
  { subst r count history. unfold _apply_temporal_consistency.
    destruct (recognition_history self) as [|h t] eqn:Eh.
    - reflexivity.
    - rewrite EX. unfold last_n. rewrite count_name_occ. reflexivity. }
  split; [|split].
  - intro Hlt. rewrite Hr.
    destruct (Nat.leb_spec 2 count); [lia | reflexivity].
  - intro Hge. rewrite Hr.
    destruct (Nat.leb_spec 2 count); [|lia].
    split; [reflexivity | apply Q.le_min_l].
  - intro Hc. rewrite Hr.
    destruct (Nat.leb_spec 2 count).
    + split; [|apply Q.le_min_l].
      apply Q.min_glb; lra.
    + lra.
Qed.

Lemma temporal_consistency_bonus_witness :
  "Alice"%string <> Unknown /\
  _apply_temporal_consistency
    (set_history new_engine ["Alice"; "Alice"]%string) "Alice" 0.5 == 0.6 /\
  _apply_temporal_consistency
    (set_history new_engine
       ["Alice"; "Alice"; "Bob"; "Bob"; "Bob"; "Bob"; "Alice"]%string)
    "Alice" 0.5 = 0.5.
Proof.
  assert (H : "Alice"%string <> Unknown) by (unfold Unknown; discriminate).
  split; [exact H|]. split.
  - destruct (temporal_consistency_bonus
                (set_history new_engine ["Alice"; "Alice"]%string)
                "Alice" 0.5 H) as (_ & Hbonus & _).
    destruct Hbonus as [Hvalue _]; [vm_compute; lia|].
    rewrite Hvalue. vm_compute. reflexivity.
  - destruct (temporal_consistency_bonus
                (set_history new_engine
                   ["Alice"; "Alice"; "Bob"; "Bob"; "Bob"; "Bob"; "Alice"]%string)
                "Alice" 0.5 H) as (Hsame & _).
    apply Hsame. vm_compute. lia.
Defined.

(** ** Recognition: the ambiguity check *)

Lemma insert_desc_length x l :
  List.length (insert_desc x l) = S (List.length l).
Proof.
  induction l as [|y t IH]; simpl; [reflexivity|].
  destruct (tuple_lt x y); simpl; [rewrite IH|]; reflexivity.
Qed.

Lemma sort_desc_length l : List.length (sort_desc l) = List.length l.
Proof.
  induction l as [|x t IH]; simpl; [reflexivity|].
  rewrite insert_desc_length, IH. reflexivity.
Qed.

Section Scoring.

Variable distance_between : Embedding -> Embedding -> Q.
Variable self : Engine.
Variable face_encoding : Embedding.
Variable threshold : Q.

(** The loop appends one score per identity, whatever the threshold. *)
Lemma score_fold_scores keys : forall acc,
  fst (fst (fst (fold_left
    (score_step distance_between self face_encoding threshold) keys acc))) =
  fst (fst (fst acc)) ++
  map (fun n => (_calculate_similarity_score distance_between self
                   face_encoding n, n)) keys.
Proof.
  induction keys as [|k keys IH]; intro acc; simpl.
  - rewrite app_nil_r. reflexivity.
  - rewrite IH. destruct acc as [[[bs sim] nm] md].
    unfold score_step.
    destruct (sim <? _); [destruct (threshold <=? _)|];
      simpl; rewrite <- app_assoc; reflexivity.
Qed.

(** A name is only ever chosen together with a score that reaches the
    threshold. *)
Lemma score_fold_chosen keys : forall acc,
  (snd (fst acc) = Unknown \/ threshold <= snd (fst (fst acc))) ->
  snd (fst (fold_left
    (score_step distance_between self face_encoding threshold) keys acc))
  = Unknown \/
  threshold <= snd (fst (fst (fold_left
    (score_step distance_between self face_encoding threshold) keys acc))).
Proof.
  induction keys as [|k keys IH]; intros acc Hacc; simpl; [exact Hacc|].
  apply IH. destruct acc as [[[bs sim] nm] md].
  unfold score_step. simpl in Hacc.
  destruct (sim <? _) eqn:E1; [destruct (threshold <=? _) eqn:E2|]; simpl.
  - right. apply Qleb_true in E2. exact E2.
  - destruct Hacc as [H|H]; [left; exact H|].
    right. apply Qltb_true in E1. lra.
  - exact Hacc.
Qed.

End Scoring.

Lemma score_all_scores dist self enc thr :
  fst (fst (fst (score_all dist self enc thr))) = all_scores dist self enc.
Proof.
  unfold score_all. rewrite score_fold_scores. reflexivity.
Qed.

Lemma score_all_chosen dist self enc thr :
  snd (fst (score_all dist self enc thr)) = Unknown \/
  thr <= snd (fst (fst (score_all dist self enc thr))).
Proof.
  unfold score_all. apply score_fold_chosen. left. reflexivity.
Qed.

(** The name decided for a face whose two best scores are too close. *)
Lemma decide_face_ambiguous dist self enc q :
  (2 <= List.length (person_encodings self))%nat ->
  first_score dist self enc - second_score dist self enc < required_margin q ->
  first_score dist self enc < 0.85 ->
  snd (fst (decide_face dist self enc q)) = Unknown.
Proof.
  intros Hlen Hmargin Hfirst.
  unfold decide_face.
  set (thr := _get_dynamic_threshold self q).
  destruct (person_encodings self) as [|p ps] eqn:Ep; [simpl in Hlen; lia|].
  pose proof (score_all_scores dist self enc thr) as Hscores.
  pose proof (score_all_chosen dist self enc thr) as Hchosen.
  destruct (score_all dist self enc thr) as [[[bs sim] nm] md].
  simpl in Hscores, Hchosen. subst bs.
  assert (Hunknown :
    snd (fst (validate_layer3 q thr
                (validate_layers12 q thr (all_scores dist self enc, sim, nm, md))))
    = Unknown).
  { unfold validate_layers12.
    destruct (sim <? thr) eqn:E1.
    - apply Qltb_true in E1.
      destruct Hchosen as [H|H]; [|lra].
      subst nm. unfold validate_layer3. simpl. reflexivity.
    - unfold first_score, second_score in Hmargin, Hfirst.
      assert (Hl : (2 <= List.length (sort_desc (all_scores dist self enc)))%nat).
      { rewrite sort_desc_length. unfold all_scores, dict_keys.
        rewrite !length_map, Ep. exact Hlen. }
      destruct (sort_desc (all_scores dist self enc)) as [|[s1 n1] [|[s2 n2] r]];
        [simpl in Hl; lia | simpl in Hl; lia |].
      simpl in Hmargin, Hfirst. fold (required_margin q).
      apply Qltb_true in Hmargin, Hfirst. rewrite Hmargin, Hfirst.
      reflexivity. }
  destruct (validate_layer3 q thr _) as [[s n] m]. simpl in Hunknown. subst n.
  simpl. reflexivity.
Qed.

(** C4.  When at least two identities exist, the margin between the best
    and the second-best score is below the required margin (0.12 when the
    quality score exceeds 0.7, else 0.18) and the best score is below
    0.85, the face is reported as "Unknown". *)
Theorem ambiguous_match_is_unknown dist self image enc loc q :
  _validate_face_quality image loc = Some q ->
  ~ quality_score q < 0.3 ->
  (2 <= List.length (person_encodings self))%nat ->
  first_score dist self enc - second_score dist self enc < required_margin q ->
  first_score dist self enc < 0.85 ->
  exists o self',
    recognize_one dist self image enc loc = Some (Some o, self') /\
    name o = "Unknown"%string.
Proof.
  intros Hq Hgate Hlen Hmargin Hfirst.
  pose proof (decide_face_ambiguous dist self enc q Hlen Hmargin Hfirst) as Hd.
  unfold recognize_one. rewrite Hq.
  destruct (quality_score q <? 0.3) eqn:E.
  { apply Qltb_true in E. contradiction. }
  destruct (decide_face dist self enc q) as [[s n] m].
  simpl in Hd. subst n.
  eexists. eexists. split; reflexivity.
Qed.

Lemma ambiguous_match_is_unknown_witness :
  let probe := embedding_on_axis 0 in
  let image := picture medium_face probe None in
  first_score axis_distance two_identities probe == 0.60 /\
  second_score axis_distance two_identities probe == 0.50 /\
  (exists q, _validate_face_quality image medium_face = Some q /\
             quality_score q == 0.8) /\
  exists o self',
    recognize_one axis_distance two_identities image probe medium_face
    = Some (Some o, self') /\
    name o = "Unknown"%string.
Proof.
  intros probe image.
  split; [vm_compute; reflexivity|].
  split; [vm_compute; reflexivity|].
  split; [eexists; split; [vm_compute; reflexivity | vm_compute; reflexivity]|].
  eapply (ambiguous_match_is_unknown axis_distance two_identities image probe
            medium_face).
  - vm_compute. reflexivity.
  - vm_compute. discriminate.
  - vm_compute. lia.
  - vm_compute. reflexivity.
  - vm_compute. reflexivity.
Defined.

(** ** Enrollment *)

(** The tail of an enrollment ends in a success or in the handler's
    error. *)
Lemma record_photo_result self name image face_count q md now r self' :
  record_photo self name image face_count q md now = (r, self') ->
  r = AddFailed \/ add_success r = true.
Proof.
  unfold record_photo.
  destruct (jpeg image) as [bytes|];
    [|intro H; injection H as <- _; left; reflexivity].
  destruct (dict_get name (known_faces_metadata self)) as [m|];
    [destruct (photo_paths m)|];
    intro H; injection H as <- _; (left; reflexivity) || (right; reflexivity).
Qed.

(** The photo step either leaves the engine alone or replaces its metadata
    and its photo files. *)
Lemma record_photo_state self name image face_count q md now r self' :
  record_photo self name image face_count q md now = (r, self') ->
  self' = self \/ exists m files, self' = set_metadata_and_files self m files.
Proof.
  unfold record_photo.
  destruct (jpeg image) as [bytes|];
    [|intro H; injection H as _ <-; left; reflexivity].
  destruct (dict_get name (known_faces_metadata self)) as [m|];
    [destruct (photo_paths m)|];
    intro H; injection H as _ <-; right; eexists; eexists; reflexivity.
Qed.

(** C6.  When the name already exists, the face passes the quality gate
    and an encoding is extracted, the enrollment is rejected as an outlier
    if and only if the average distance from the new embedding to the
    existing embeddings of that name exceeds 0.7; a rejected outlier
    leaves the engine as it was. *)
Theorem outlier_rejection dist self name image md now first rest q e existing r self' :
  detect image = first :: rest ->
  _validate_face_quality image (choose_face first rest) = Some q ->
  ~ quality_score q < 0.6 ->
  _extract_face_encoding image (choose_face first rest) = Some e ->
  dict_get name (person_encodings self) = Some existing ->
  add_known_person dist self name (Some image) md now = (r, self') ->
  ((exists a, r = AddOutlier a) <-> 0.7 < np.mean (face_distance dist existing e)) /\
  (0.7 < np.mean (face_distance dist existing e) ->
   r = AddOutlier (np.mean (face_distance dist existing e)) /\ self' = self).
Proof.
  intros Hdet Hq Hgate He Hex Hadd.
  unfold add_known_person in Hadd.
  rewrite Hdet, Hq in Hadd.
  destruct (quality_score q <? 0.6) eqn:Eg.
  { apply Qltb_true in Eg. contradiction. }
  rewrite He, Hex in Hadd.
  destruct (0.7 <? np.mean (face_distance dist existing e)) eqn:Eo.
  - injection Hadd as <- <-. apply Qltb_true in Eo.
    split; [split; [intros _; exact Eo | intros _; eexists; reflexivity]|].
    intros _. split; reflexivity.
  - apply Qltb_false in Eo.
    split; [|intro K; exfalso; apply (Qlt_not_le _ _ K Eo)].
    split; [|intro K; exfalso; apply (Qlt_not_le _ _ K Eo)].
    intros [a Ha]. subst r. exfalso.
    destruct (store_encoding self name e) as [s1|s1].
    + destruct (record_photo_result _ _ _ _ _ _ _ _ _ Hadd); discriminate.
    + discriminate.
Qed.

Lemma outlier_rejection_witness :
  let e := embedding_on_axis 0.9 in
  let image := picture large_face e (Some "jpeg"%string) in
  0.7 < np.mean (face_distance axis_distance [embedding_on_axis 0] e) /\
  snd (add_known_person axis_distance one_identity "Alice" (Some image) None
         "2024-01-02T00:00:00") = one_identity.
Proof.
  intros e image.
  assert (Hfar : 0.7 < np.mean (face_distance axis_distance [embedding_on_axis 0] e))
    by (vm_compute; reflexivity).
  split; [exact Hfar|].
  destruct (add_known_person axis_distance one_identity "Alice" (Some image) None
              "2024-01-02T00:00:00") as [r s'] eqn:Eadd.
  edestruct (outlier_rejection axis_distance one_identity "Alice" image None
               "2024-01-02T00:00:00"%string large_face []) as [_ H];
    [ reflexivity
    | vm_compute; reflexivity
    | vm_compute; discriminate
    | vm_compute; reflexivity
    | vm_compute; reflexivity
    | exact Eadd
    | ].
  destruct (H Hfar) as [_ ->]. reflexivity.
Defined.

(** An exception inside the update of the encoding structures leaves
    them untouched. *)
Lemma store_encoding_interrupted self name e s :
  store_encoding self name e = inr s -> s = self.
Proof.
  unfold store_encoding.
  destruct (dict_get name (person_encodings self)) as [existing|]; [|discriminate].
  destruct (max_faces_per_person <=? List.length existing)%nat eqn:E; [|discriminate].
  destruct (list_index name (known_face_names self)) as [idx|];
    [|intro H; injection H as <-; reflexivity].
  destruct (list_assign idx e (known_face_encodings self)) as [encs|];
    [|intro H; injection H as <-; reflexivity].
  destruct existing as [|x t]; [discriminate E|].
  simpl. discriminate.
Qed.

Lemma store_encoding_metadata self name e s :
  store_encoding self name e = inl s ->
  known_faces_metadata s = known_faces_metadata self /\
  photo_files s = photo_files self.
Proof.
  unfold store_encoding.
  destruct (dict_get name (person_encodings self)) as [existing|].
  - destruct (max_faces_per_person <=? List.length existing)%nat.
    + destruct (list_index name (known_face_names self)) as [idx|]; [|discriminate].
      destruct (list_assign idx e (known_face_encodings self)); [|discriminate].
      destruct (list_assign 0 e existing); [|discriminate].
      intro H; injection H as <-. split; reflexivity.
    + intro H; injection H as <-. split; reflexivity.
  - intro H; injection H as <-. split; reflexivity.
Qed.

Lemma dict_get_set {V} k (v : V) (d : dict V) :
  dict_get k (dict_set k v d) = Some v.
Proof.
  induction d as [|[k' v'] t IH]; simpl.
  - rewrite String.eqb_refl. reflexivity.
  - destruct (String.eqb k' k) eqn:E; simpl; rewrite E; [reflexivity | exact IH].
Qed.

Lemma store_encoding_result self name e s :
  store_encoding self name e = inl s ->
  person_encodings s = dict_set name (stored_list self name e) (person_encodings self).
Proof.
  unfold store_encoding, stored_list.
  destruct (dict_get name (person_encodings self)) as [existing|].
  - destruct (max_faces_per_person <=? List.length existing)%nat.
    + destruct (list_index name (known_face_names self)) as [idx|]; [|discriminate].
      destruct (list_assign idx e (known_face_encodings self)); [|discriminate].
      destruct existing as [|x t]; [discriminate|].
      simpl. intro K; injection K as <-. reflexivity.
    + intro K; injection K as <-. reflexivity.
  - intro K; injection K as <-. reflexivity.
Qed.

(** C5 as stated fails: an enrollment whose photo cannot be saved returns
    an error although the new embedding is already in the store. *)
Lemma enrollment_error_store_changed :
  ~ (forall dist self name photo md now,
       add_success (fst (add_known_person dist self name photo md now)) = false ->
       store (snd (add_known_person dist self name photo md now)) = store self).
Proof.
  intro H.
  specialize (H axis_distance new_engine "Alice"%string
                (Some (picture large_face (embedding_on_axis 0) None))
                None "2024-01-01T00:00:00"%string).
  vm_compute in H. specialize (H eq_refl). discriminate H.
Qed.

(** C5, amended.  An enrollment that returns an error leaves the whole
    engine state as it was before the call, unless the error comes from
    the exception handler after the embedding extracted from the photo has
    been stored.  Then the three encoding structures are those reached by
    storing that embedding (the list of the name is the one a success
    would leave) and the metadata are as before; and either the photo
    could not be saved, and the photo files are as before too, or the
    photo was saved and the metadata entry of the name has no
    [photo_paths] key (an entry taken over from the legacy format), and
    the photo file is written.  In particular the no-face, low-quality,
    outlier and extraction errors never change the store. *)
Theorem enrollment_error_state dist self name photo md now r self' :
  add_known_person dist self name photo md now = (r, self') ->
  add_success r = false ->
  self' = self \/
  (r = AddFailed /\
   known_faces_metadata self' = known_faces_metadata self /\
   exists image first rest e s1,
     photo = Some image /\
     detect image = first :: rest /\
     _extract_face_encoding image (choose_face first rest) = Some e /\
     store_encoding self name e = inl s1 /\
     store self' = store s1 /\
     encodings_of self' name = stored_list self name e /\
     ((jpeg image = None /\ self' = s1 /\
       photo_files self' = photo_files self) \/
      (exists bytes m,
         jpeg image = Some bytes /\
         dict_get name (known_faces_metadata self) = Some m /\
         photo_paths m = None /\
         photo_files self'
         = dict_set
             (photo_path_for name (List.length (stored_list self name e)))
             bytes (photo_files self)))).
Proof.
  intros Hadd Herr. unfold add_known_person in Hadd.
  destruct photo as [image|]; [|injection Hadd as <- <-; left; reflexivity].
  destruct (detect image) as [|first rest] eqn:Edet;
    [injection Hadd as <- <-; left; reflexivity|].
  destruct (_validate_face_quality image (choose_face first rest)) as [q|];
    [|injection Hadd as <- <-; left; reflexivity].
  destruct (quality_score q <? 0.6);
    [injection Hadd as <- <-; left; reflexivity|].
  destruct (_extract_face_encoding image (choose_face first rest)) as [e|] eqn:Ee;
    [|injection Hadd as <- <-; left; reflexivity].
  destruct (match dict_get name (person_encodings self) with
            | Some existing_encodings =>
                if 0.7 <? np.mean (face_distance dist existing_encodings e)
                then Some (np.mean (face_distance dist existing_encodings e))
                else None
            | None => None
            end);
    [injection Hadd as <- <-; left; reflexivity|].
  destruct (store_encoding self name e) as [s1|s1] eqn:Es.
  2:{ injection Hadd as <- <-. left.
      apply (store_encoding_interrupted _ _ _ _ Es). }
  right.
  destruct (store_encoding_metadata _ _ _ _ Es) as [Hm Hf].
  assert (Henc : encodings_of s1 name = stored_list self name e).
  { unfold encodings_of. rewrite (store_encoding_result _ _ _ _ Es), dict_get_set.
    reflexivity. }
  unfold record_photo in Hadd. rewrite Henc in Hadd.
  destruct (jpeg image) as [bytes|] eqn:Ej.
  - rewrite Hm in Hadd.
    destruct (dict_get name (known_faces_metadata self)) as [m|] eqn:Eg.
    + destruct (photo_paths m) as [paths|] eqn:Ep.
      * injection Hadd as <- <-. discriminate Herr.
      * injection Hadd as <- <-.
        split; [reflexivity|]. split; [reflexivity|].
        exists image, first, rest, e, s1.
        split; [reflexivity|]. split; [exact Edet|]. split; [exact Ee|].
        split; [exact Es|].
        split; [unfold store; simpl; rewrite Hm; reflexivity|].
        split; [exact Henc|].
        right. exists bytes, m.
        split; [first [exact Ej | reflexivity]|].
        split; [first [exact Eg | reflexivity]|].
        split; [first [exact Ep | reflexivity]|].
        simpl. rewrite Hf. reflexivity.
    + injection Hadd as <- <-. discriminate Herr.
  - injection Hadd as <- <-.
    split; [reflexivity|]. split; [exact Hm|].
    exists image, first, rest, e, s1.
    split; [reflexivity|]. split; [exact Edet|]. split; [exact Ee|].
    split; [exact Es|]. split; [reflexivity|]. split; [exact Henc|].
    left. split; [first [exact Ej | reflexivity]|].
    split; [reflexivity | exact Hf].
Qed.

Lemma enrollment_error_state_witness :
  let photo := Some (picture large_face (embedding_on_axis 0.9) (Some "jpeg"%string)) in
  add_known_person axis_distance one_identity "Alice" photo None "2024-01-02T00:00:00"
  = (AddOutlier (9 # 10), one_identity).
Proof.
  intro photo.
  destruct (add_known_person axis_distance one_identity "Alice" photo None
              "2024-01-02T00:00:00") as [r s'] eqn:Eadd.
  assert (Hr : r = AddOutlier (9 # 10))
    by (apply (f_equal fst) in Eadd; vm_compute in Eadd; symmetry; exact Eadd).
  assert (Herr : add_success r = false) by (rewrite Hr; reflexivity).
  destruct (enrollment_error_state axis_distance one_identity "Alice"%string photo
              None "2024-01-02T00:00:00"%string r s' Eadd Herr) as [->|[K _]].
  - rewrite Hr. reflexivity.
  - rewrite Hr in K. discriminate K.
Defined.

(** The second way of the handler: a further photo of a name whose
    metadata were taken over from the legacy format.  The photo is saved,
    the embedding is stored, and the call returns the error. *)
Lemma migrated_metadata_enrollment_fails :
  let outcome :=
    add_known_person axis_distance migrated_engine "Bob"
      (Some (picture large_face (embedding_on_axis 0.01) (Some "jpeg"%string)))
      None "2024-01-02T00:00:00" in
  fst outcome = AddFailed /\
  encodings_of (snd outcome) "Bob" = [embedding_on_axis 0; embedding_on_axis 0.01] /\
  known_faces_metadata (snd outcome) = known_faces_metadata migrated_engine /\
  photo_files (snd outcome) = [(photo_path_for "Bob" 2, "jpeg"%string)].
Proof.
  intro outcome. repeat split; vm_compute; reflexivity.
Qed.

(** ** Removal *)

Lemma dict_get_del {V} k (d : dict V) : dict_get k (dict_del k d) = None.
Proof.
  induction d as [|[k' v] t IH]; simpl; [reflexivity|].
  destruct (String.eqb k' k) eqn:E; [exact IH|].
  simpl. rewrite E. exact IH.
Qed.

Lemma dict_keys_del {V} k (d : dict V) : ~ In k (dict_keys (dict_del k d)).
Proof.
  induction d as [|[k' v] t IH]; simpl; [tauto|].
  destruct (String.eqb k' k) eqn:E; [exact IH|].
  simpl. intros [H|H]; [|exact (IH H)].
  subst k'. rewrite String.eqb_refl in E. discriminate.
Qed.

Lemma list_del_app {A} (l m : list A) : forall i l',
  list_del i l = Some l' -> list_del i (l ++ m) = Some (l' ++ m).
Proof.
  induction l as [|x t IH]; intros i l' H; [destruct i; discriminate|].
  destruct i as [|j]; simpl in *.
  - injection H as <-. reflexivity.
  - destruct (list_del j t) as [t'|] eqn:E; [|discriminate].
    injection H as <-. rewrite (IH j t' E). reflexivity.
Qed.

Lemma list_del_last {A} (l : list A) x :
  list_del (List.length l) (l ++ [x]) = Some l.
Proof.
  induction l as [|y t IH]; simpl; [reflexivity|].
  rewrite IH. reflexivity.
Qed.

Lemma indices_of_app x l1 l2 : forall i,
  indices_of x i (l1 ++ l2) =
  indices_of x i l1 ++ indices_of x (i + List.length l1) l2.
Proof.
  induction l1 as [|y t IH]; intro i; simpl.
  - rewrite Nat.add_0_r. reflexivity.
  - rewrite IH. replace (S i + List.length t)%nat with (i + S (List.length t))%nat by lia.
    destruct (String.eqb y x); reflexivity.
Qed.

Lemma delete_indices_app idxs : forall E N E' N' E2 N2,
  delete_indices idxs E N = inl (E', N') ->
  delete_indices idxs (E ++ E2) (N ++ N2) = inl (E' ++ E2, N' ++ N2).
Proof.
  induction idxs as [|i rest IH]; intros E N E' N' E2 N2 H; simpl in *.
  - injection H as <- <-. reflexivity.
  - destruct (list_del i E) as [E1|] eqn:HE; [|discriminate].
    destruct (list_del i N) as [N1|] eqn:HN; [|discriminate].
    rewrite (list_del_app _ E2 _ _ HE), (list_del_app _ N2 _ _ HN).
    apply IH. exact H.
Qed.

(** Deleting, from the last to the first, the positions that hold [name]
    keeps exactly the entries of the other names. *)
Lemma delete_indices_filter name (ps : list (Embedding * string)) :
  delete_indices (rev (indices_of name 0 (map snd ps))) (map fst ps) (map snd ps)
  = inl (map fst (filter (other_than name) ps),
         map snd (filter (other_than name) ps)).
Proof.
  induction ps as [|p ps IH] using rev_ind; [reflexivity|].
  rewrite !map_app, indices_of_app, filter_app, !map_app. simpl.
  unfold other_than at 2 4.
  destruct (String.eqb (snd p) name) eqn:E; simpl.
  - rewrite rev_app_distr. simpl.
    rewrite length_map, <- (length_map fst ps), list_del_last.
    rewrite (length_map fst ps), <- (length_map snd ps), list_del_last.
    rewrite !app_nil_r. exact IH.
  - rewrite app_nil_r. apply delete_indices_app. exact IH.
Qed.

Lemma combine_split_maps {A B} (l : list A) (m : list B) :
  List.length l = List.length m ->
  map fst (combine l m) = l /\ map snd (combine l m) = m.
Proof.
  revert m. induction l as [|x t IH]; intros [|y u] H; simpl in *;
    try discriminate; [split; reflexivity|].
  injection H as H. destruct (IH u H) as [-> ->]. split; reflexivity.
Qed.

Lemma combine_of_maps {A B} (ps : list (A * B)) :
  combine (map fst ps) (map snd ps) = ps.
Proof.
  induction ps as [|[a b] t IH]; simpl; [|rewrite IH]; reflexivity.
Qed.

Lemma list_known_persons_names self :
  map pi_name (list_known_persons self) = dict_keys (person_encodings self).
Proof.
  unfold list_known_persons, dict_keys. rewrite map_map.
  apply map_ext. intros [n encs]. simpl.
  destruct (dict_get n (known_faces_metadata self)); reflexivity.
Qed.






(** The two flat lists keep the same length through enrollment. *)
Lemma list_assign_length {A} (v : A) : forall l i l',
  list_assign i v l = Some l' -> List.length l' = List.length l.
Proof.
  induction l as [|x t IH]; intros i l' H; [destruct i; discriminate|].
  destruct i as [|j]; simpl in H.
  - injection H as <-. reflexivity.
  - destruct (list_assign j v t) as [t'|] eqn:E; [|discriminate].
    injection H as <-. simpl. rewrite (IH j t' E). reflexivity.
Qed.

(** The state after any enrollment call: the one before, or the one
    reached by storing the embedding, possibly with new metadata and a new
    photo file. *)
Lemma add_known_person_state dist self name photo md now r self' :
  add_known_person dist self name photo md now = (r, self') ->
  self' = self \/
  exists e s1,
    store_encoding self name e = inl s1 /\
    (self' = s1 \/ exists m files, self' = set_metadata_and_files s1 m files).
Proof.
  intro Hadd. unfold add_known_person in Hadd.
  destruct photo as [image|]; [|injection Hadd as _ <-; left; reflexivity].
  destruct (detect image) as [|first rest];
    [injection Hadd as _ <-; left; reflexivity|].
  destruct (_validate_face_quality image (choose_face first rest)) as [q|];
    [|injection Hadd as _ <-; left; reflexivity].
  destruct (quality_score q <? 0.6);
    [injection Hadd as _ <-; left; reflexivity|].
  destruct (_extract_face_encoding image (choose_face first rest)) as [e|];
    [|injection Hadd as _ <-; left; reflexivity].
  destruct (match dict_get name (person_encodings self) with
            | Some existing_encodings => _ | None => _ end);
    [injection Hadd as _ <-; left; reflexivity|].
  destruct (store_encoding self name e) as [s1|s1] eqn:Es.
  - right. exists e, s1. split; [exact Es|].
    destruct (record_photo_state _ _ _ _ _ _ _ _ _ Hadd) as [->|Hset];
      [left; reflexivity | right; exact Hset].
  - injection Hadd as _ <-. left.
    apply (store_encoding_interrupted _ _ _ _ Es).
Qed.

Lemma store_encoding_lengths self name e s :
  List.length (known_face_encodings self) = List.length (known_face_names self) ->
  store_encoding self name e = inl s ->
  List.length (known_face_encodings s) = List.length (known_face_names s).
Proof.
  intro Hwf. unfold store_encoding.
  destruct (dict_get name (person_encodings self)) as [existing|].
  - destruct (max_faces_per_person <=? List.length existing)%nat.
    + destruct (list_index name (known_face_names self)) as [idx|]; [|discriminate].
      destruct (list_assign idx e (known_face_encodings self)) as [encs|] eqn:Ea;
        [|discriminate].
      destruct (list_assign 0 e existing); [|discriminate].
      intro H; injection H as <-. simpl.
      rewrite (list_assign_length _ _ _ _ Ea). exact Hwf.
    + intro H; injection H as <-. simpl. rewrite !length_app, Hwf. reflexivity.
  - intro H; injection H as <-. simpl. rewrite !length_app, Hwf. reflexivity.
Qed.

(** The two flat lists have the same length in a new engine, and keep it
    through enrollment and removal. *)
Lemma add_known_person_lengths dist self name photo md now r self' :
  List.length (known_face_encodings self) = List.length (known_face_names self) ->
  add_known_person dist self name photo md now = (r, self') ->
  List.length (known_face_encodings self') = List.length (known_face_names self').
Proof.
  intros Hwf Hadd.
  destruct (add_known_person_state _ _ _ _ _ _ _ _ Hadd)
    as [->|[e [s1 [Hs [->|[m [files ->]]]]]]].
  - exact Hwf.
  - exact (store_encoding_lengths _ _ _ _ Hwf Hs).
  - simpl. exact (store_encoding_lengths _ _ _ _ Hwf Hs).
Qed.

Lemma remove_known_person_lengths self unlink_fails name r self' :
  List.length (known_face_encodings self) = List.length (known_face_names self) ->
  remove_known_person self unlink_fails name = (r, self') ->
  List.length (known_face_encodings self') = List.length (known_face_names self').
Proof.
  intros Hwf Hrm. unfold remove_known_person in Hrm.
  destruct (dict_mem name (person_encodings self)); simpl in Hrm;
    [|injection Hrm as _ <-; exact Hwf].
  destruct (combine_split_maps _ _ Hwf) as [Hf Hs].
  pose proof (delete_indices_filter name
                (combine (known_face_encodings self) (known_face_names self))) as Hdel.
  rewrite Hf, Hs in Hdel. rewrite Hdel in Hrm.
  destruct (match dict_get name (known_faces_metadata self) with
            | Some m => _ | None => _ end) as [m files].
  injection Hrm as _ <-. simpl. rewrite !length_map. reflexivity.
Qed.

(** ** Capacity of an identity *)


(** At capacity, storing an embedding overwrites position 0 of the
    identity's list and leaves the other positions alone; below capacity
    it appends. *)
Lemma store_encoding_at_capacity self name e x rest s :
  dict_get name (person_encodings self) = Some (x :: rest) ->
  (max_faces_per_person <= List.length (x :: rest))%nat ->
  store_encoding self name e = inl s ->
  encodings_of s name = e :: rest.
Proof.
  intros Hget Hcap. unfold store_encoding. rewrite Hget.
  destruct (Nat.leb_spec max_faces_per_person (List.length (x :: rest))); [|lia].
  destruct (list_index name (known_face_names self)) as [idx|]; [|discriminate].
  destruct (list_assign idx e (known_face_encodings self)); [|discriminate].
  simpl. intro K; injection K as <-.
  unfold encodings_of. simpl. rewrite dict_get_set. reflexivity.
Qed.

Lemma store_encoding_below_capacity self name e existing s :
  dict_get name (person_encodings self) = Some existing ->
  (List.length existing < max_faces_per_person)%nat ->
  store_encoding self name e = inl s ->
  encodings_of s name = existing ++ [e].
Proof.
  intros Hget Hcap. unfold store_encoding. rewrite Hget.
  destruct (Nat.leb_spec max_faces_per_person (List.length existing)); [lia|].
  intro K; injection K as <-.
  unfold encodings_of. simpl. rewrite dict_get_set. reflexivity.
Qed.

(** C3.  Six successive enrollments of one name all succeed.  The fifth
    overwrites position 0, the oldest embedding; the sixth overwrites
    position 0 again, which by then holds the fifth: the count stays at 4,
    but the second most recent embedding is lost and the second oldest is
    still stored. *)
Theorem over_capacity_overwrites_newest :
  map add_success (fst six_enrollments) = [true; true; true; true; true; true] /\
  encodings_of (snd five_enrollments) "Alice"
  = map embedding_on_axis [0.04; 0.01; 0.02; 0.03] /\
  encodings_of (snd six_enrollments) "Alice"
  = map embedding_on_axis [0.05; 0.01; 0.02; 0.03] /\
  known_face_encodings (snd six_enrollments)
  = map embedding_on_axis [0.05; 0.01; 0.02; 0.03].
Proof.
  repeat split; vm_compute; reflexivity.
Qed.

(** ** Ensemble weights *)

(** C9.  The reference list of an identity is kept oldest first, and the
    weight at position [i] is [ensemble_weights[min(i, 3)]]: with an older
    and a newer reference, the older one is weighted 0.4 and the newer one
    0.3, so a probe equal to the older reference scores higher than a
    probe equal to the newer one. *)
Theorem newest_reference_weighted_less :
  encodings_of two_references "Alice"
  = [embedding_on_axis 0; embedding_on_axis 0.2] /\
  (forall d_oldest d_newest,
     weighted_similarities [d_oldest; d_newest]
     = [_distance_to_similarity d_oldest * 0.4;
        _distance_to_similarity d_newest * 0.3]) /\
  _calculate_similarity_score axis_distance two_references
    (embedding_on_axis 0.2) "Alice"
  < _calculate_similarity_score axis_distance two_references
      (embedding_on_axis 0) "Alice".
Proof.
  split; [vm_compute; reflexivity|].
  split; [intros; reflexivity|].
  vm_compute. reflexivity.
Qed.

(** ** Range of the similarity score *)

Lemma np_min_nonneg l : forall x,
  0 <= x -> Forall (fun d => 0 <= d) l -> 0 <= np.min x l.
Proof.
  unfold np.min.
  induction l as [|y t IH]; intros x Hx Hl; simpl; [exact Hx|].
  inversion Hl; subst. apply IH; [apply Q.min_glb|]; assumption.
Qed.

(** The score never exceeds 1, and with a single reference it is never
    negative, for a distance that is never negative. *)
Lemma similarity_of_upper_bound dist references face_encoding :
  (forall a b, 0 <= dist a b) ->
  similarity_of dist references face_encoding <= 1.
Proof.
  intro Hdist. unfold similarity_of.
  destruct references as [|r0 rs]; [simpl; lra|].
  unfold face_distance. cbn [map].
  destruct (negb use_ensemble_method || (List.length (r0 :: rs) =? 1)%nat).
  - apply distance_to_similarity_range. apply np_min_nonneg; [apply Hdist|].
    apply Forall_forall. intros d Hd. apply in_map_iff in Hd.
    destruct Hd as [r [<- _]]. apply Hdist.
  - eapply Qle_trans; [apply Q.le_min_l | lra].
Qed.

Lemma similarity_of_single_reference dist reference face_encoding :
  0 <= dist reference face_encoding ->
  0 <= similarity_of dist [reference] face_encoding <= 1.
Proof.
  intro Hd. unfold similarity_of. simpl.
  apply distance_to_similarity_range. exact Hd.
Qed.

(** C1.  With two references that are both farther than 1 from the probe,
    the ensemble score is negative: the closing [min(1.0, final_score)]
    bounds it from above only. *)
Theorem ensemble_score_negative :
  Forall (fun d => 1 < d)
    (face_distance axis_distance (encodings_of twin_references "Alice")
       (embedding_on_axis 1.5)) /\
  _calculate_similarity_score axis_distance twin_references
    (embedding_on_axis 1.5) "Alice" == - 0.1078 /\
  _calculate_similarity_score axis_distance twin_references
    (embedding_on_axis 1.5) "Alice" < 0.
Proof.
  split; [vm_compute; repeat constructor|].
  split; vm_compute; reflexivity.
Qed.

(** ** Quality validator *)

Lemma penalise_inv c f t acc lo hi c1 c2 c3 lo' d1 d2 d3 :
  quality_inv lo hi c1 c2 c3 acc ->
  0 < lo -> hi <= 1 -> 0 < f -> f <= 0.9 ->
  lo' <= lo * f ->
  f <= d1 -> c1 * f <= d2 -> c2 * f <= d3 -> c3 * f <= d3 ->
  c1 <= d1 -> c2 <= d2 -> c3 <= d3 ->
  quality_inv lo' hi d1 d2 d3 (penalise c f t acc).
Proof.
  intros (Hlo & Hhi & HK & H1 & H2 & H3) Plo Phi Pf Pf9 Plo' Pd1 Pd2 Pd3 Pd3' Q1 Q2 Q3.
  destruct acc as [s l]. simpl in *.
  assert (Hs : 0 < s) by lra.
  assert (Hsf : s * f <= s) by nra.
  assert (Hlosf : lo * f <= s * f) by nra.
  assert (Hlof : lo * f <= lo) by nra.
  unfold penalise, quality_inv. destruct c; simpl.
  - rewrite length_app. simpl.
    split; [lra|]. split; [lra|].
    split.
    { right. split; [destruct l; discriminate|]. nra. }
    split; [intros _; nra|].
    split.
    + intro K. assert (K' : (1 <= List.length l)%nat) by lia.
      specialize (H1 K'). nra.
    + intro K. assert (K' : (2 <= List.length l)%nat) by lia.
      specialize (H2 K'). nra.
  - split; [lra|]. split; [lra|]. split; [exact HK|].
    split; [intro K; specialize (H1 K); lra|].
    split; [intro K; specialize (H2 K); lra|].
    intro K; specialize (H3 K); lra.
Qed.

Lemma quality_inv_eta lo hi c1 c2 c3 acc :
  quality_inv lo hi c1 c2 c3 acc ->
  quality_inv lo hi c1 c2 c3 (fst acc, snd acc).
Proof. destruct acc. exact (fun H => H). Qed.

Lemma validate_face_quality_inv image loc q :
  _validate_face_quality image loc = Some q ->
  quality_inv 0.0288 (if is_small loc then 0.5 else 1) 0.9 0.72 0.576
    (quality_score q, issues q) /\
  is_good_quality q =
    (0.7 <? quality_score q) && (List.length (issues q) <=? 2)%nat.
Proof.
  unfold _validate_face_quality, is_small.
  destruct loc as [[[top right_] bottom] left_].
  cbv zeta.
  destruct (bottom - top =? 0)%Z; [discriminate|].
  destruct (pixel_stats image (top, right_, bottom, left_)) as [st|]; [|discriminate].
  intro H.
  apply (f_equal (fun o => match o with Some x => x | None => q end)) in H.
  cbv beta iota in H. subst q.
  cbv beta iota delta [quality_score issues is_good_quality].
  split; [|reflexivity].
  apply quality_inv_eta.
  set (small := ((right_ - left_ <? 60) || (bottom - top <? 60))%Z).
  assert (H0 : quality_inv 1 1 0.8 0.64 0.512 (1.0, @nil string)).
  { unfold quality_inv. simpl. repeat split; try lra; try (intro; lia).
    left. split; reflexivity. }
  match goal with |- context [penalise _ 0.6 "unusual_aspect_ratio" ?a] =>
    set (acc1 := a) end.
  assert (H1 : quality_inv 0.5 (if small then 0.5 else 1) 0.8 0.64 0.512 acc1).
  { subst acc1. destruct small.
    - assert (K : quality_inv 0.5 1 0.8 0.64 0.512
                    (penalise true 0.5 "small_face" (1.0, @nil string)))
        by (apply (penalise_inv _ 0.5 _ _ _ _ _ _ _ 0.5 0.8 0.64 0.512 H0); lra).
      destruct K as (A & B & C).
      split; [exact A|]. split; [simpl; lra | exact C].
    - apply (penalise_inv _ 0.8 _ _ _ _ _ _ _ 0.5 0.8 0.64 0.512 H0); lra. }
  clearbody acc1. clear H0.
  match goal with |- context [penalise ?c 0.6 "unusual_aspect_ratio" acc1] =>
    set (acc2 := penalise c 0.6 "unusual_aspect_ratio" acc1) end.
  assert (H2 : quality_inv 0.3 (if small then 0.5 else 1) 0.8 0.64 0.512 acc2).
  { subst acc2. apply (penalise_inv _ 0.6 _ _ _ _ _ _ _ 0.3 0.8 0.64 0.512 H1);
      try lra; destruct small; lra. }
  clearbody acc2. clear H1.
  match goal with |- context [penalise ?c 0.6 "low_contrast" ?a] =>
    set (acc3 := a) end.
  assert (H3 : quality_inv 0.15 (if small then 0.5 else 1) 0.9 0.72 0.576 acc3).
  { subst acc3.
    destruct (px_brightness st <? 40);
      [|destruct (220 <? px_brightness st)];
      [ apply (penalise_inv _ 0.5 _ _ _ _ _ _ _ 0.15 0.9 0.72 0.576 H2)
      | apply (penalise_inv _ 0.7 _ _ _ _ _ _ _ 0.15 0.9 0.72 0.576 H2)
      | apply (penalise_inv _ 0.9 _ _ _ _ _ _ _ 0.15 0.9 0.72 0.576 H2) ];
      try lra; destruct small; lra. }
  clearbody acc3. clear H2.
  match goal with |- context [penalise ?c 0.4 "blurry" ?a] =>
    set (acc4 := a) end.
  assert (H4 : quality_inv 0.09 (if small then 0.5 else 1) 0.9 0.72 0.576 acc4).
  { subst acc4.
    destruct (px_contrast st <? 25);
      [ apply (penalise_inv _ 0.6 _ _ _ _ _ _ _ 0.09 0.9 0.72 0.576 H3)
      | apply (penalise_inv _ 0.8 _ _ _ _ _ _ _ 0.09 0.9 0.72 0.576 H3) ];
      try lra; destruct small; lra. }
  clearbody acc4. clear H3.
  match goal with |- context [penalise ?c 0.8 "edge_face" ?a] =>
    set (acc5 := a) end.
  assert (H5 : quality_inv 0.036 (if small then 0.5 else 1) 0.9 0.72 0.576 acc5).
  { subst acc5.
    destruct (px_laplacian_var st <? 50);
      [ apply (penalise_inv _ 0.4 _ _ _ _ _ _ _ 0.036 0.9 0.72 0.576 H4)
      | apply (penalise_inv _ 0.7 _ _ _ _ _ _ _ 0.036 0.9 0.72 0.576 H4) ];
      try lra; destruct small; lra. }
  clearbody acc5. clear H4.
  apply (penalise_inv _ 0.8 _ _ _ _ _ _ _ 0.0288 0.9 0.72 0.576 H5);
    try lra; destruct small; lra.
Qed.

(** ** Recognition: what a decision guarantees *)

Lemma get_dynamic_threshold_range self q :
  0.45 <= _get_dynamic_threshold self q <= 0.75.
Proof.
  unfold _get_dynamic_threshold. simpl negb. cbv iota zeta.
  unfold min_threshold, max_threshold. split.
  - apply Q.le_max_l.
  - apply Q.max_lub; [lra | apply Q.le_min_l].
Qed.

Lemma apply_temporal_consistency_cases self n c :
  _apply_temporal_consistency self n c = c \/
  exists b, 0 <= b /\ b <= 0.15 /\
            _apply_temporal_consistency self n c = Qmin 1.0 (c + b).
Proof.
  unfold _apply_temporal_consistency.
  destruct (recognition_history self); [left; reflexivity|].
  destruct (String.eqb n Unknown); [left; reflexivity|].
  match goal with |- context [(2 <=? ?k)%nat] => set (count := k) end.
  destruct (2 <=? count)%nat; [|left; reflexivity].
  right. eexists. split; [|split; [|reflexivity]].
  - apply Q.min_glb; [|lra]. apply Qmult_le_0_compat;
      [unfold temporal_bonus; lra|].
    change 0 with (inject_Z 0). rewrite <- Zle_Qle. lia.
  - apply Q.le_min_r.
Qed.

Lemma apply_temporal_consistency_bounds self n c :
  let r := _apply_temporal_consistency self n c in
  (0 <= c -> 0 <= r) /\ (c <= 1 -> r <= 1) /\ Qmin 1 c <= r /\ r <= c + 0.15.
Proof.
  intro r. subst r.
  destruct (apply_temporal_consistency_cases self n c) as [->|[b [Hb [Hb' ->]]]].
  - repeat split; try (intro; assumption); [apply Q.le_min_r | lra].
  - split; [intro; apply Q.min_glb; lra|].
    split; [intro; eapply Qle_trans; [apply Q.le_min_l | lra]|].
    split.
    + apply Q.min_glb.
      * eapply Qle_trans; [apply Q.le_min_l | lra].
      * eapply Qle_trans; [apply Q.le_min_r | lra].
    + eapply Qle_trans; [apply Q.le_min_r | lra].
Qed.

Lemma score_fold_best dist self enc thr keys : forall acc,
  incl keys (dict_keys (person_encodings self)) ->
  best_inv dist self enc thr acc ->
  best_inv dist self enc thr (fold_left (score_step dist self enc thr) keys acc).
Proof.
  induction keys as [|k keys IH]; intros acc Hincl Hacc; [exact Hacc|].
  simpl. apply IH; [intros x Hx; apply Hincl; right; exact Hx|].
  assert (Hk : In k (dict_keys (person_encodings self)))
    by (apply Hincl; left; reflexivity).
  destruct acc as [[[bs sim] nm] md]. simpl in Hacc.
  destruct Hacc as (H0 & Hsim & Hnm).
  unfold score_step.
  set (s := _calculate_similarity_score dist self enc k).
  destruct (sim <? s) eqn:E1; [destruct (thr <=? s) eqn:E2|]; simpl.
  - apply Qltb_true in E1. apply Qleb_true in E2.
    split; [lra|]. split; [right; exists k; split; [exact Hk | reflexivity]|].
    right. repeat split; assumption.
  - apply Qltb_true in E1. apply Qleb_false in E2.
    split; [lra|]. split; [right; exists k; split; [exact Hk | reflexivity]|].
    destruct Hnm as [(Hn & Hm & _)|(_ & _ & Ht & _)]; [|lra].
    left. split; [exact Hn|]. split; [exact Hm|]. right. exact E2.
  - split; [exact H0|]. split; [exact Hsim | exact Hnm].
Qed.

Lemma score_all_best dist self enc thr :
  best_inv dist self enc thr (score_all dist self enc thr).
Proof.
  unfold score_all. apply score_fold_best; [apply incl_refl|].
  simpl. split; [lra|]. split; [left; reflexivity|].
  left. split; [reflexivity|]. split; [reflexivity|]. left. reflexivity.
Qed.

Lemma decision_rejected dist self enc thr :
  0 < thr -> decision_ok dist self enc thr (0.0, Unknown, None).
Proof.
  intro Ht. unfold decision_ok.
  split; [lra|]. split; [intros _; lra|]. split; [left; reflexivity|].
  intros _ _. split; [reflexivity | lra].
Qed.

Lemma decide_face_spec dist self enc q :
  decision_ok dist self enc (_get_dynamic_threshold self q)
    (decide_face dist self enc q).
Proof.
  unfold decide_face.
  pose proof (get_dynamic_threshold_range self q) as Hthr.
  set (thr := _get_dynamic_threshold self q) in *.
  assert (Hpos : 0 < thr) by lra.
  pose proof (decision_rejected dist self enc thr Hpos) as Hrej.
  pose proof (score_all_best dist self enc thr) as Hbest.
  destruct (person_encodings self) as [|p ps] eqn:Ep.
  { exact Hrej. }
  clear Ep p ps.
  destruct (score_all dist self enc thr) as [[[bs sim] nm] md].
  simpl in Hbest. destruct Hbest as (H0 & Hsim & Hnm).
  assert (Hle1 : (forall k, _calculate_similarity_score dist self enc k <= 1) ->
                 sim <= 1).
  { intro Hall. destruct Hsim as [->|[k [_ ->]]]; [lra | apply Hall]. }
  unfold validate_layers12.
  destruct (sim <? thr) eqn:E1.
  { apply Qltb_true in E1.
    destruct Hnm as [(-> & -> & _)|(_ & _ & Ht & _)]; [|lra].
    simpl. split; [exact H0|]. split; [exact Hle1|].
    split; [left; reflexivity|].
    intros _ _. split; [reflexivity | exact E1]. }
  apply Qltb_false in E1.
  assert (Hpass :
    decision_ok dist self enc thr
      (let '(best_similarity, best_match_name, best_metadata) :=
         validate_layer3 q thr (true, sim, nm, md) in
       (if negb (String.eqb best_match_name Unknown)
        then _apply_temporal_consistency self best_match_name best_similarity
        else best_similarity, best_match_name, best_metadata))).
  { destruct Hnm as [(Hn & Hm & Hs)|(Hin & Hsc & Ht & Hm)].
    { exfalso. destruct Hs as [->|Hs]; lra. }
    unfold validate_layer3. simpl andb.
    destruct (String.eqb nm Unknown) eqn:En; simpl negb; cbv iota.
    - rewrite En. simpl.
      split; [exact H0|]. split; [exact Hle1|].
      split; [left; apply String.eqb_eq; exact En|].
      intros Hno _. exfalso. apply Hno.
      apply String.eqb_eq in En. rewrite <- En. exact Hin.
    - set (adj := if 0.8 <? quality_score q then Qmin 1.0 (sim * 1.02)
                  else if quality_score q <? 0.5 then sim * 0.9 else sim).
      assert (Hadj0 : 0 <= adj).
      { subst adj. destruct (0.8 <? quality_score q);
          [apply Q.min_glb; lra | destruct (quality_score q <? 0.5); lra]. }
      assert (Hadj1 : sim <= 1 -> adj <= 1).
      { intro K. subst adj. destruct (0.8 <? quality_score q);
          [eapply Qle_trans; [apply Q.le_min_l | lra]
          | destruct (quality_score q <? 0.5); lra]. }
      destruct (adj <? thr) eqn:E3; [exact Hrej|].
      apply Qltb_false in E3. rewrite En. simpl negb. cbv iota.
      destruct (apply_temporal_consistency_bounds self nm adj)
        as (T0 & T1 & Tmin & _).
      split; [apply T0; exact Hadj0|].
      split; [intro Hall; apply T1; apply Hadj1; apply Hle1; exact Hall|].
      split.
      + right. split; [exact Hin|]. split; [rewrite <- Hsc; exact Ht|].
        split; [|exact Hm].
        eapply Qle_trans; [|exact Tmin]. apply Q.min_glb; lra.
      + intros _ K. apply String.eqb_neq in En. contradiction. }
  destruct (sort_desc bs) as [|[first_score n1] [|[second_score n2] rest]];
    try exact Hpass.
  destruct ((first_score - second_score <?
             (if 0.7 <? quality_score q then 0.12 else 0.18))
            && (first_score <? 0.85)); [exact Hrej | exact Hpass].
Qed.

(** X1.  A quality report has a score between 0.0288 and 1; the score is
    1 exactly when no issue is tagged; and [is_good_quality] holds exactly
    when the score exceeds 0.7: with three issues or more the score is at
    most 0.576, so the test on the number of issues never decides. *)
Theorem quality_report_score image loc q :
  _validate_face_quality image loc = Some q ->
  0.0288 <= quality_score q <= 1 /\
  (issues q = [] <-> quality_score q == 1) /\
  (is_good_quality q = true <-> 0.7 < quality_score q).
Proof.
  intro H. destruct (validate_face_quality_inv image loc q H) as [Hinv Hgood].
  destruct Hinv as (Hlo & Hhi & HK & _ & _ & H3). simpl in *.
  split.
  { split; [exact Hlo|]. destruct (is_small loc); lra. }
  split.
  { destruct HK as [[Hn Hs]|[Hn Hs]].
    - split; intros _; assumption.
    - split; [intro K; contradiction | intro K; lra]. }
  rewrite Hgood. rewrite andb_true_iff, Qltb_true.
  split; [intros [K _]; exact K|].
  intro K. split; [exact K|].
  apply Nat.leb_le.
  destruct (Nat.le_gt_cases (List.length (issues q)) 2) as [L|L]; [exact L|].
  specialize (H3 L). lra.
Qed.

Lemma quality_report_score_witness :
  exists q,
    _validate_face_quality
      (picture medium_face (embedding_on_axis 0) None) medium_face = Some q /\
    0.0288 <= quality_score q <= 1.
Proof.
  eexists. split; [vm_compute; reflexivity|].
  eapply (quality_report_score (picture medium_face (embedding_on_axis 0) None)
            medium_face).
  vm_compute. reflexivity.
Defined.

(** X2.  A face narrower or lower than 60 pixels is never enrolled: its
    quality score is at most 0.5, so [add_known_person] returns the
    low-quality error (or fails while validating) and the engine is
    unchanged.  Hence the size test of [_extract_face_encoding] never
    decides an enrollment: the extraction error is returned only when the
    encoder itself gives nothing. *)
Theorem small_face_never_enrolled dist self name image md now first rest r self' :
  detect image = first :: rest ->
  add_known_person dist self name (Some image) md now = (r, self') ->
  (is_small (choose_face first rest) = true ->
   self' = self /\
   (r = AddFailed \/
    exists score tags, r = AddLowQuality score tags /\ score <= 0.5)) /\
  (forall face_count,
     r = AddNoFeatures face_count ->
     encode image (choose_face first rest) = None).
Proof.
  intros Hdet Hadd. unfold add_known_person in Hadd.
  rewrite Hdet in Hadd.
  destruct (_validate_face_quality image (choose_face first rest)) as [q|] eqn:Eq.
  2:{ injection Hadd as <- <-. split; [|discriminate].
      intros _. split; [reflexivity | left; reflexivity]. }
  destruct (validate_face_quality_inv _ _ _ Eq) as [(_ & Hhi & _) _].
  simpl in Hhi.
  destruct (quality_score q <? 0.6) eqn:Eg.
  { injection Hadd as <- <-. split; [|discriminate].
    intro Hsmall. rewrite Hsmall in Hhi. split; [reflexivity|].
    right. exists (quality_score q), (issues q). split; [reflexivity | exact Hhi]. }
  apply Qltb_false in Eg.
  destruct (is_small (choose_face first rest)) eqn:Es; [lra|].
  split; [discriminate|].
  intros face_count Hr.
  unfold _extract_face_encoding in Hadd. unfold is_small in Es.
  destruct (choose_face first rest) as [[[top right_] bottom] left_].
  apply orb_false_iff in Es. destruct Es as [Ew Eh].
  apply Z.ltb_ge in Ew, Eh.
  unfold min_face_size in Hadd.
  destruct (Z.ltb_spec (right_ - left_) 50); [lia|].
  destruct (Z.ltb_spec (bottom - top) 50); [lia|].
  simpl in Hadd.
  destruct (encode image (top, right_, bottom, left_)) as [e|]; [|reflexivity].
  exfalso. subst r.
  destruct (match dict_get name (person_encodings self) with
            | Some existing_encodings => _ | None => _ end); [discriminate|].
  destruct (store_encoding self name e) as [s1|s1]; [|discriminate].
  destruct (record_photo_result _ _ _ _ _ _ _ _ _ Hadd); discriminate.
Qed.

Lemma small_face_never_enrolled_witness :
  let tiny := (100, 255, 300, 200)%Z in
  let image := mkImage 480 640 [tiny]
                 (fun _ => Some (mkPixelStats 128 50 150))
                 (fun _ => Some (embedding_on_axis 0)) (Some "jpeg"%string) in
  is_small tiny = true /\
  snd (add_known_person axis_distance new_engine "Alice" (Some image) None
         "2024-01-01T00:00:00") = new_engine.
Proof.
  intros tiny image.
  split; [reflexivity|].
  destruct (add_known_person axis_distance new_engine "Alice" (Some image) None
              "2024-01-01T00:00:00") as [r s'] eqn:Eadd.
  destruct (small_face_never_enrolled axis_distance new_engine "Alice"%string
              image None "2024-01-01T00:00:00"%string tiny [] r s'
              eq_refl Eadd) as [H _].
  destruct (H eq_refl) as [-> _]. reflexivity.
Defined.

(** ** Recognition: the loop over the faces and the history *)

Lemma last_n_short {A} k (l : list A) :
  (List.length l <= k)%nat -> last_n k l = l.
Proof.
  intro H. unfold last_n. replace (List.length l - k)%nat with 0%nat by lia.
  reflexivity.
Qed.

Lemma last_n_length {A} k (l : list A) :
  List.length (last_n k l) = Nat.min k (List.length l).
Proof. unfold last_n. rewrite length_skipn. lia. Qed.

Lemma last_n_app_long {A} k (p l : list A) :
  (k <= List.length l)%nat -> last_n k (p ++ l) = last_n k l.
Proof.
  intro H. unfold last_n. rewrite length_app, skipn_app.
  rewrite skipn_all2 by lia. simpl. f_equal. lia.
Qed.

Lemma last_n_last_n_app {A} k (l m : list A) :
  last_n k (last_n k l ++ m) = last_n k (l ++ m).
Proof.
  destruct (Nat.le_gt_cases (List.length l) k) as [H|H].
  - rewrite (last_n_short k l H). reflexivity.
  - rewrite <- (firstn_skipn (List.length l - k) l) at 2.
    rewrite <- app_assoc.
    change (skipn (List.length l - k) l) with (last_n k l).
    symmetry. apply last_n_app_long.
    rewrite length_app, last_n_length. lia.
Qed.

(** The history after an update: the last ten names. *)
Lemma update_recognition_history_spec self n :
  _update_recognition_history self n
  = set_history self (last_n history_window (recognition_history self ++ [n])).
Proof.
  unfold _update_recognition_history.
  destruct (Nat.ltb_spec history_window
              (List.length (recognition_history self ++ [n]))); [reflexivity|].
  rewrite last_n_short by assumption. reflexivity.
Qed.

(** One face: either it is skipped and nothing changes, or it yields an
    outcome built from the decision, and its name enters the history. *)
Lemma recognize_one_spec dist self image enc loc x self' :
  recognize_one dist self image enc loc = Some (x, self') ->
  match x with
  | None => self' = self
  | Some o =>
    exists q,
      _validate_face_quality image loc = Some q /\
      out_dynamic_threshold o = _get_dynamic_threshold self q /\
      decision_ok dist self enc (_get_dynamic_threshold self q)
        (confidence o, name o, metadata o) /\
      out_access_level o =
        match metadata o with
        | Some m => access_level m
        | None => if String.eqb (name o) Unknown
                  then "none"%string else "standard"%string
        end /\
      self' = set_history self
                (last_n history_window (recognition_history self ++ [name o]))
  end.
Proof.
  unfold recognize_one.
  destruct (_validate_face_quality image loc) as [q|]; [|discriminate].
  destruct (quality_score q <? 0.3).
  { intro H. injection H as <- <-. reflexivity. }
  pose proof (decide_face_spec dist self enc q) as Hd.
  destruct (decide_face dist self enc q) as [[s n] m].
  intro H. injection H as <- <-.
  exists q. simpl. split; [reflexivity|]. split; [reflexivity|].
  split; [exact Hd|]. split; [reflexivity|].
  apply update_recognition_history_spec.
Qed.

Lemma recognize_one_state dist self image enc loc x self' :
  recognize_one dist self image enc loc = Some (x, self') ->
  self' = set_history self (recognition_history self').
Proof.
  intro H. pose proof (recognize_one_spec _ _ _ _ _ _ _ H) as Hs.
  destruct x as [o|].
  - destruct Hs as (q & _ & _ & _ & _ & ->). reflexivity.
  - subst self'. destruct self. reflexivity.
Qed.

(** The loop over the faces changes nothing but the history. *)
Lemma recognize_loop_state dist image faces : forall self acc res self',
  recognize_loop dist self image faces acc = (res, self') ->
  self' = set_history self (recognition_history self').
Proof.
  induction faces as [|[enc loc] rest IH]; intros self acc res self' Hloop;
    simpl in Hloop.
  - injection Hloop as _ <-. destruct self. reflexivity.
  - destruct (recognize_one dist self image enc loc) as [[[o|] s1]|] eqn:E1.
    + apply IH in Hloop. apply recognize_one_state in E1.
      rewrite Hloop, E1. reflexivity.
    + apply IH in Hloop. apply recognize_one_state in E1.
      rewrite Hloop, E1. reflexivity.
    + injection Hloop as _ <-. destruct self. reflexivity.
Qed.

Section Loop.

Variable dist : Embedding -> Embedding -> Q.
Variable self : Engine.
Variable image : Image.
Variable P : Outcome -> Prop.

Hypothesis P_one : forall h enc loc o s',
  recognize_one dist (set_history self h) image enc loc = Some (Some o, s') ->
  P o.

(** Starting from a history of at most ten names, the loop leaves the
    last ten of the old names followed by the names of its outcomes, and
    every outcome satisfies what each single face guarantees. *)
Lemma recognize_loop_spec faces : forall h acc res s',
  (List.length h <= history_window)%nat ->
  Forall P acc ->
  recognize_loop dist (set_history self h) image faces acc = (res, s') ->
  exists new,
    s' = set_history self (last_n history_window (h ++ map name new)) /\
    match res with
    | Some outs => outs = acc ++ new /\ Forall P outs
    | None => True
    end.
Proof.
  induction faces as [|[enc loc] rest IH]; intros h acc res s' Hh Hacc Hloop;
    simpl in Hloop.
  - injection Hloop as <- <-. exists []. simpl. rewrite !app_nil_r.
    rewrite last_n_short by exact Hh. split; [reflexivity|].
    split; [reflexivity | exact Hacc].
  - destruct (recognize_one dist (set_history self h) image enc loc)
      as [[[o|] s1]|] eqn:E1.
    + pose proof (P_one _ _ _ _ _ E1) as Po.
      apply recognize_one_spec in E1.
      destruct E1 as (q & _ & _ & _ & _ & ->).
      change (set_history (set_history self h)
                (last_n history_window
                   (recognition_history (set_history self h) ++ [name o])))
        with (set_history self (last_n history_window (h ++ [name o]))) in Hloop.
      apply IH in Hloop.
      * destruct Hloop as (new & -> & Hres). exists (o :: new).
        split.
        { rewrite last_n_last_n_app, <- app_assoc. reflexivity. }
        destruct res as [outs|]; [|exact I].
        destruct Hres as [-> HP]. rewrite <- app_assoc in *.
        split; [reflexivity | exact HP].
      * rewrite last_n_length. lia.
      * apply Forall_app. split; [exact Hacc | constructor; [exact Po | constructor]].
    + apply recognize_one_spec in E1. subst s1.
      apply IH in Hloop; assumption.
    + injection Hloop as <- <-. exists []. simpl. rewrite app_nil_r.
      rewrite last_n_short by exact Hh. split; [reflexivity | exact I].
Qed.

End Loop.

(** ** Recognition: what is reported *)

(** Every outcome of the loop satisfies what each single face of the
    frame guarantees, whatever the history. *)
Lemma recognize_loop_outcomes_in dist self image (P : Outcome -> Prop) all :
  (forall h enc loc o s',
     In (enc, loc) all ->
     recognize_one dist (set_history self h) image enc loc = Some (Some o, s') ->
     P o) ->
  forall faces h acc outs s',
    incl faces all ->
    Forall P acc ->
    recognize_loop dist (set_history self h) image faces acc = (Some outs, s') ->
    Forall P outs.
Proof.
  intros P_one faces.
  induction faces as [|[enc loc] rest IH]; intros h acc outs s' Hin Hacc Hloop;
    simpl in Hloop.
  - injection Hloop as <- _. exact Hacc.
  - assert (Hrest : incl rest all) by (intros x Hx; apply Hin; right; exact Hx).
    destruct (recognize_one dist (set_history self h) image enc loc)
      as [[[o|] s1]|] eqn:E1; [| |discriminate].
    + assert (Po : P o) by (apply (P_one _ _ _ _ _ (Hin _ (or_introl eq_refl)) E1)).
      apply recognize_one_state in E1. rewrite E1 in Hloop.
      change (set_history (set_history self h) (recognition_history s1))
        with (set_history self (recognition_history s1)) in Hloop.
      apply IH in Hloop; [exact Hloop | exact Hrest |].
      apply Forall_app. split; [exact Hacc | constructor; [exact Po | constructor]].
    + apply recognize_one_state in E1. rewrite E1 in Hloop.
      change (set_history (set_history self h) (recognition_history s1))
        with (set_history self (recognition_history s1)) in Hloop.
      apply IH in Hloop; assumption.
Qed.

Lemma set_history_same self : set_history self (recognition_history self) = self.
Proof. destruct self. reflexivity. Qed.

(** From the loop to [recognize_face]. *)
Lemma recognize_face_outcomes_in dist self frame encs (P : Outcome -> Prop) :
  (forall image h enc loc o s',
     frame = Some image -> In enc encs ->
     recognize_one dist (set_history self h) image enc loc = Some (Some o, s') ->
     P o) ->
  forall n outs self',
    recognize_face dist self frame encs = (RecOk n outs, self') ->
    Forall P outs.
Proof.
  intros P_one n outs self' H. unfold recognize_face in H.
  destruct frame as [image|]; [|discriminate].
  destruct (detect image) as [|b bs]; [discriminate|].
  destruct (recognize_loop dist self image (combine encs (b :: bs)) [])
    as [[res|] s1] eqn:El; [|discriminate].
  injection H as _ <- _.
  rewrite <- (set_history_same self) in El.
  apply (recognize_loop_outcomes_in dist self image P (combine encs (b :: bs))
           (fun h enc loc o s' Hin =>
              P_one image h enc loc o s' eq_refl (in_combine_l _ _ _ _ Hin))
           _ _ _ _ _ (incl_refl _) (Forall_nil P) El).
Qed.

Lemma recognize_face_outcomes dist self frame encs (P : Outcome -> Prop) :
  (forall image h enc loc o s',
     frame = Some image ->
     recognize_one dist (set_history self h) image enc loc = Some (Some o, s') ->
     P o) ->
  forall n outs self',
    recognize_face dist self frame encs = (RecOk n outs, self') ->
    Forall P outs.
Proof.
  intro P_one. apply recognize_face_outcomes_in.
  intros image h enc loc o s' Hf _. apply P_one. exact Hf.
Qed.

Lemma calculate_similarity_score_le_1 dist self enc k :
  (forall a b, 0 <= dist a b) ->
  _calculate_similarity_score dist self enc k <= 1.
Proof.
  intro Hd. unfold _calculate_similarity_score.
  destruct (dict_get k (person_encodings self)); [|lra].
  apply similarity_of_upper_bound. exact Hd.
Qed.

(** X3.  Recognition never touches the identity store, the base
    threshold or the photo files: the engine it returns differs from the
    one it was given by the recognition history only, whether the call
    succeeds, finds no face or fails. *)
Theorem recognize_face_keeps_store dist self frame encs :
  let self' := snd (recognize_face dist self frame encs) in
  self' = set_history self (recognition_history self') /\
  store self' = store self /\
  confidence_threshold self' = confidence_threshold self /\
  photo_files self' = photo_files self.
Proof.
  intro self'.
  assert (H : self' = set_history self (recognition_history self')).
  { subst self'. unfold recognize_face.
    destruct frame as [image|]; [|simpl; symmetry; apply set_history_same].
    destruct (detect image) as [|b bs]; [simpl; symmetry; apply set_history_same|].
    destruct (recognize_loop dist self image (combine encs (b :: bs)) [])
      as [[res|] s1] eqn:El; simpl;
      exact (recognize_loop_state _ _ _ _ _ _ _ El). }
  split; [exact H|]. rewrite H. repeat split.
Qed.

(** X4.  Every reported outcome has a non-negative confidence and a
    threshold between 0.45 and 0.75; its name is "Unknown" or the name of
    an enrolled identity, and in that case the confidence reaches the
    threshold and the metadata are the identity's. *)
Theorem recognized_outcomes_sound dist self frame encs n outs self' :
  recognize_face dist self frame encs = (RecOk n outs, self') ->
  Forall (fun o =>
            0 <= confidence o /\
            0.45 <= out_dynamic_threshold o <= 0.75 /\
            (name o = "Unknown"%string \/
             (In (name o) (dict_keys (person_encodings self)) /\
              out_dynamic_threshold o <= confidence o /\
              metadata o = dict_get (name o) (known_faces_metadata self))))
         outs.
Proof.
  apply recognize_face_outcomes.
  intros image h enc loc o s' _ H1.
  apply recognize_one_spec in H1.
  destruct H1 as (q & _ & Ht & Hd & _).
  destruct Hd as (H0 & _ & Hn & _).
  change (_get_dynamic_threshold (set_history self h) q)
    with (_get_dynamic_threshold self q) in *.
  split; [exact H0|]. rewrite Ht.
  split; [apply get_dynamic_threshold_range|].
  destruct Hn as [Hn|(Hin & _ & Hc & Hm)]; [left; exact Hn|].
  right. split; [exact Hin|]. split; [exact Hc | exact Hm].
Qed.

Lemma recognized_outcomes_sound_witness :
  exists outs s',
    recognize_face axis_distance one_identity doorstep_frame
      [embedding_on_axis 0] = (RecOk 1 outs, s') /\
    map name outs = ["Alice"%string] /\
    Forall (fun o => 0.45 <= out_dynamic_threshold o <= 0.75) outs.
Proof.
  eexists. eexists. split; [vm_compute; reflexivity|].
  split; [reflexivity|].
  eapply Forall_impl;
    [|eapply (recognized_outcomes_sound axis_distance one_identity
                doorstep_frame [embedding_on_axis 0]);
      vm_compute; reflexivity].
  intros o (_ & H & _). exact H.
Defined.

Lemma axis_distance_nonneg a b : 0 <= axis_distance a b.
Proof. unfold axis_distance. apply Qabs_nonneg. Qed.

(** X5.  With a distance that is never negative, every reported
    confidence lies in [0, 1], although the score of an identity can be
    negative. *)
Theorem recognized_confidence_range dist self frame encs n outs self' :
  (forall a b, 0 <= dist a b) ->
  recognize_face dist self frame encs = (RecOk n outs, self') ->
  Forall (fun o => 0 <= confidence o <= 1) outs.
Proof.
  intro Hdist. apply recognize_face_outcomes.
  intros image h enc loc o s' _ H1.
  apply recognize_one_spec in H1.
  destruct H1 as (q & _ & _ & Hd & _).
  destruct Hd as (H0 & H1 & _).
  split; [exact H0|]. apply H1.
  intro k. apply calculate_similarity_score_le_1. exact Hdist.
Qed.

Lemma recognized_confidence_range_witness :
  (forall a b, 0 <= axis_distance a b) /\
  exists outs s',
    recognize_face axis_distance one_identity doorstep_frame
      [embedding_on_axis 0] = (RecOk 1 outs, s') /\
    Forall (fun o => 0 <= confidence o <= 1) outs.
Proof.
  split; [exact axis_distance_nonneg|].
  eexists. eexists. split; [vm_compute; reflexivity|].
  eapply (recognized_confidence_range axis_distance one_identity
            doorstep_frame [embedding_on_axis 0]);
    [exact axis_distance_nonneg | vm_compute; reflexivity].
Defined.

(** X6.  Starting from a history of at most ten names, the history
    after a recognition call holds at most ten names, and after a
    successful call it is exactly the last ten of the old history followed
    by the names of the reported outcomes, "Unknown" included. *)
Theorem recognition_history_window dist self frame encs :
  (List.length (recognition_history self) <= history_window)%nat ->
  (List.length (recognition_history (snd (recognize_face dist self frame encs)))
   <= history_window)%nat /\
  forall n outs self',
    recognize_face dist self frame encs = (RecOk n outs, self') ->
    recognition_history self'
    = last_n history_window (recognition_history self ++ map name outs).
Proof.
  intro Hh. unfold recognize_face.
  destruct frame as [image|]; [|split; [exact Hh | discriminate]].
  destruct (detect image) as [|b bs]; [split; [exact Hh | discriminate]|].
  destruct (recognize_loop dist self image (combine encs (b :: bs)) [])
    as [res s1] eqn:El.
  rewrite <- (set_history_same self) in El.
  apply (recognize_loop_spec dist self image (fun _ => True)
           (fun _ _ _ _ _ _ => I) _ _ _ _ _ Hh (Forall_nil _)) in El.
  destruct El as (new & -> & Hres).
  destruct res as [outs|]; simpl.
  - destruct Hres as [-> _]. simpl.
    split; [rewrite last_n_length; lia|].
    intros n outs' self' H. injection H as _ <- <-. reflexivity.
  - split; [rewrite last_n_length; lia | discriminate].
Qed.

Lemma recognition_history_window_witness :
  (List.length (recognition_history one_identity) <= history_window)%nat /\
  recognition_history
    (snd (recognize_face axis_distance one_identity doorstep_frame
            [embedding_on_axis 0]))
  = ["Alice"%string].
Proof.
  assert (H : (List.length (recognition_history one_identity) <= history_window)%nat)
    by (vm_compute; lia).
  split; [exact H|].
  destruct (recognition_history_window axis_distance one_identity doorstep_frame
              [embedding_on_axis 0] H) as [_ Hexact].
  destruct (recognize_face axis_distance one_identity doorstep_frame
              [embedding_on_axis 0]) as [r s'] eqn:Er.
  assert (Hr : exists outs, r = RecOk 1 outs /\ map name outs = ["Alice"%string]).
  { apply (f_equal fst) in Er. vm_compute in Er. subst r.
    eexists. split; reflexivity. }
  destruct Hr as (outs & -> & Hn).
  simpl. rewrite (Hexact 1%nat outs s' eq_refl), Hn. reflexivity.
Defined.

(** ** Recognition: probes far from an identity *)

Lemma np_max_le b l : forall x,
  x <= b -> Forall (fun y => y <= b) l -> np.max x l <= b.
Proof.
  unfold np.max. induction l as [|y t IH]; intros x Hx Hl; simpl; [exact Hx|].
  inversion Hl; subst. apply IH; [apply Q.max_lub|]; assumption.
Qed.

Lemma np_min_gt b l : forall x,
  b < x -> Forall (fun y => b < y) l -> b < np.min x l.
Proof.
  unfold np.min. induction l as [|y t IH]; intros x Hx Hl; simpl; [exact Hx|].
  inversion Hl; subst. apply IH; [apply Q.min_glb_lt|]; assumption.
Qed.

Lemma distance_to_similarity_far d :
  0.6 < d -> 0 <= _distance_to_similarity d <= 0.2.
Proof.
  intro H.
  destruct (distance_to_similarity_cases d)
    as [[? ->]|[[? [? ->]]|[[? [? ->]]|[[? [? ->]]|[[? [? ->]]|[? ->]]]]]]; lra.
Qed.

(** The weighted vote of at most four references that are all farther
    than 0.6 is at most 0.2. *)
Lemma weighted_similarities_far distances :
  (List.length distances <= 4)%nat ->
  Forall (fun d => 0.6 < d) distances ->
  np.sum (weighted_similarities distances) <= 0.2.
Proof.
  intros Hlen Hfar.
  assert (Hs : Forall (fun d => 0 <= _distance_to_similarity d <= 0.2) distances).
  { eapply Forall_impl; [|exact Hfar]. intros d. apply distance_to_similarity_far. }
  clear Hfar.
  unfold weighted_similarities, np.sum.
  destruct distances as [|d0 [|d1 [|d2 [|d3 [|d4 t]]]]];
    try (simpl in Hlen; lia);
    repeat match goal with
           | H : Forall _ (_ :: _) |- _ => inversion H; clear H; subst
           end;
    cbn [List.length seq combine map fold_left ensemble_weight ensemble_weights
         nth Nat.min Nat.sub];
    repeat match goal with
           | |- context [_distance_to_similarity ?d] =>
             let s := fresh "s" in
             set (s := _distance_to_similarity d) in *; clearbody s
           end;
    lra.
Qed.

(** An identity with at most four references, all farther than 0.6 from
    the probe, scores below 0.264. *)
Lemma similarity_of_far dist references face_encoding :
  (List.length references <= max_faces_per_person)%nat ->
  Forall (fun r => 0.6 < dist r face_encoding) references ->
  similarity_of dist references face_encoding <= 0.264.
Proof.
  intros Hlen Hfar. unfold similarity_of.
  assert (Hd : Forall (fun d => 0.6 < d) (face_distance dist references face_encoding)).
  { unfold face_distance. apply Forall_forall. intros d Hin.
    apply in_map_iff in Hin. destruct Hin as [r [<- Hr]].
    rewrite Forall_forall in Hfar. apply Hfar. exact Hr. }
  assert (Hl : (List.length (face_distance dist references face_encoding) <= 4)%nat).
  { unfold face_distance. rewrite length_map. exact Hlen. }
  destruct (face_distance dist references face_encoding) as [|d0 ds] eqn:Ed; [lra|].
  pose proof Hd as Hd'.
  inversion Hd' as [|? ? Hd0 Hds]; subst.
  pose proof (np_min_gt 0.6 ds d0 Hd0 Hds) as Hmin.
  destruct (negb use_ensemble_method || (List.length references =? 1)%nat).
  { pose proof (distance_to_similarity_far _ Hmin). lra. }
  eapply Qle_trans; [apply Q.le_min_r|].
  unfold ensemble_score.
  pose proof (weighted_similarities_far (d0 :: ds) Hl Hd) as Hwa.
  assert (Hbest : np.max (_distance_to_similarity d0)
                    (map _distance_to_similarity ds) <= 0.2).
  { apply np_max_le; [apply distance_to_similarity_far; exact Hd0|].
    apply Forall_forall. intros y Hy. apply in_map_iff in Hy.
    destruct Hy as [d [<- Hin]]. rewrite Forall_forall in Hds.
    apply distance_to_similarity_far. apply Hds. exact Hin. }
  cbv zeta.
  set (wa := np.sum (weighted_similarities (d0 :: ds))) in *.
  set (best := np.max _ _) in *.
  set (mind := np.min d0 ds) in *.
  clearbody wa best mind.
  destruct (0.15 * 0.15 <? np.var (d0 :: ds));
    [|destruct (np.var (d0 :: ds) <? 0.05 * 0.05)];
    (destruct (3 <=? List.length (d0 :: ds))%nat;
     [match goal with |- context [if ?c then _ else _] => destruct c end|]);
    lra.
Qed.

(** X7.  An identity with at most four references, all farther than 0.6
    from every probe of the frame, is never reported: its score stays
    below 0.264, under the lowest threshold 0.45. *)
Theorem far_probe_never_matched dist self frame encs who references n outs self' :
  who <> "Unknown"%string ->
  dict_get who (person_encodings self) = Some references ->
  (List.length references <= max_faces_per_person)%nat ->
  (forall enc, In enc encs -> Forall (fun r => 0.6 < dist r enc) references) ->
  recognize_face dist self frame encs = (RecOk n outs, self') ->
  Forall (fun o => name o <> who) outs.
Proof.
  intros Hwho Hget Hlen Hfar.
  apply recognize_face_outcomes_in.
  intros image h enc loc o s' _ Henc H1.
  apply recognize_one_spec in H1.
  destruct H1 as (q & _ & _ & Hd & _).
  destruct Hd as (_ & _ & Hn & _).
  intro Heq. rewrite Heq in Hn.
  destruct Hn as [Hn|(_ & Hs & _)]; [contradiction|].
  change (_get_dynamic_threshold (set_history self h) q)
    with (_get_dynamic_threshold self q) in Hs.
  change (_calculate_similarity_score dist (set_history self h) enc who)
    with (_calculate_similarity_score dist self enc who) in Hs.
  pose proof (get_dynamic_threshold_range self q) as Ht.
  unfold _calculate_similarity_score in Hs. rewrite Hget in Hs.
  pose proof (similarity_of_far dist references enc Hlen (Hfar enc Henc)).
  lra.
Qed.

Lemma far_probe_never_matched_witness :
  let probe := embedding_on_axis 0.9 in
  let frame := Some (picture large_face probe None) in
  exists outs s',
    recognize_face axis_distance one_identity frame [probe] = (RecOk 1 outs, s') /\
    Forall (fun o => name o <> "Alice"%string) outs.
Proof.
  intros probe frame.
  eexists. eexists. split; [vm_compute; reflexivity|].
  eapply (far_probe_never_matched axis_distance one_identity frame [probe]
            "Alice"%string [embedding_on_axis 0]).
  - discriminate.
  - vm_compute. reflexivity.
  - vm_compute. lia.
  - intros enc [<-|[]]. constructor; [vm_compute; reflexivity | constructor].
  - vm_compute. reflexivity.
Defined.

(** ** Recognition after a removal *)

Lemma remove_known_person_ok self unlink_fails who k self1 :
  remove_known_person self unlink_fails who = (RemoveOk k, self1) ->
  person_encodings self1 = dict_del who (person_encodings self).
Proof.
  unfold remove_known_person.
  destruct (dict_mem who (person_encodings self)); simpl; [|discriminate].
  destruct (delete_indices _ _ _) as [[e nm]|[e nm]]; [|discriminate].
  destruct (match dict_get who (known_faces_metadata self) with
            | Some m => _ | None => _ end) as [md files].
  intro H. injection H as _ <-. reflexivity.
Qed.

(** X8.  After a successful removal, no recognition outcome carries the
    removed name. *)
Theorem removed_identity_never_recognized
  dist self unlink_fails who k self1 frame encs n outs self2 :
  who <> "Unknown"%string ->
  remove_known_person self unlink_fails who = (RemoveOk k, self1) ->
  recognize_face dist self1 frame encs = (RecOk n outs, self2) ->
  Forall (fun o => name o <> who) outs.
Proof.
  intros Hwho Hrm.
  apply remove_known_person_ok in Hrm.
  apply recognize_face_outcomes_in.
  intros image h enc loc o s' _ _ H1.
  apply recognize_one_spec in H1.
  destruct H1 as (q & _ & _ & Hd & _).
  destruct Hd as (_ & _ & Hn & _).
  intro Heq. rewrite Heq in Hn.
  destruct Hn as [Hn|(Hin & _)]; [contradiction|].
  change (person_encodings (set_history self1 h))
    with (person_encodings self1) in Hin.
  rewrite Hrm in Hin. exact (dict_keys_del _ _ Hin).
Qed.

Lemma removed_identity_never_recognized_witness :
  let removed := remove_known_person two_identities (fun _ => false) "Alice" in
  let probe := embedding_on_axis 0.43 in
  let frame := Some (picture large_face probe None) in
  fst removed = RemoveOk 1 /\
  exists outs s',
    recognize_face axis_distance (snd removed) frame [probe]
    = (RecOk 1 outs, s') /\
    map name outs = ["Bob"%string] /\
    Forall (fun o => name o <> "Alice"%string) outs.
Proof.
  intros removed probe frame.
  split; [vm_compute; reflexivity|].
  eexists. eexists. split; [vm_compute; reflexivity|].
  split; [reflexivity|].
  eapply (removed_identity_never_recognized axis_distance two_identities
            (fun _ => false) "Alice"%string 1%nat (snd removed)
            frame [probe]).
  - discriminate.
  - vm_compute. reflexivity.
  - vm_compute. reflexivity.
Defined.

(** ** The doorbell *)

(** Every outcome of a recognition has a threshold of at least 0.45 and
    is either "Unknown" or names an enrolled identity with a confidence
    that reaches the threshold. *)
Lemma recognize_face_outcomes_enrolled dist self frame encs n outs s' :
  recognize_face dist self frame encs = (RecOk n outs, s') ->
  Forall (fun o =>
            0.45 <= out_dynamic_threshold o /\
            (name o = "Unknown"%string \/
             (In (name o) (dict_keys (person_encodings self)) /\
              out_dynamic_threshold o <= confidence o))) outs.
Proof.
  apply recognize_face_outcomes_in.
  intros image h enc loc o s1 _ _ H1.
  apply recognize_one_spec in H1.
  destruct H1 as (q & _ & Ht & Hd & _).
  destruct Hd as (_ & _ & Hn & _).
  change (_get_dynamic_threshold (set_history self h) q)
    with (_get_dynamic_threshold self q) in *.
  rewrite Ht. split; [apply get_dynamic_threshold_range|].
  destruct Hn as [Hn|(Hk & _ & Hc & _)]; [left; exact Hn|].
  right. split; assumption.
Qed.

(** The first authorized person of a recognition names an enrolled
    identity, has one of the three access levels and a confidence that
    reaches its threshold. *)
Lemma first_authorized_enrolled dist self frame encs n outs s' p rest :
  recognize_face dist self frame encs = (RecOk n outs, s') ->
  authorized_persons outs = p :: rest ->
  name p <> "Unknown"%string /\
  In (name p) (dict_keys (person_encodings self)) /\
  In (out_access_level p) ["standard"; "admin"; "guest"]%string /\
  0.45 <= out_dynamic_threshold p /\
  out_dynamic_threshold p <= confidence p.
Proof.
  intros Er Ea.
  assert (Hin : In p (authorized_persons outs)) by (rewrite Ea; left; reflexivity).
  unfold authorized_persons in Hin. apply filter_In in Hin.
  destruct Hin as [Hin Hauth].
  unfold authorized in Hauth. apply andb_true_iff in Hauth.
  destruct Hauth as [Hname Hlevel].
  apply negb_true_iff, String.eqb_neq in Hname.
  pose proof (recognize_face_outcomes_enrolled _ _ _ _ _ _ _ Er) as Hall.
  rewrite Forall_forall in Hall. destruct (Hall p Hin) as [Ht Hn].
  destruct Hn as [Hn|[Hk Hc]]; [contradiction|].
  split; [exact Hname|]. split; [exact Hk|].
  split; [|split; assumption].
  apply existsb_exists in Hlevel. destruct Hlevel as [lvl [Hl He]].
  apply String.eqb_eq in He. rewrite He. exact Hl.
Qed.

(** X9.  [doorbell_ring] acts only with [auto_open] set;
    [handle_doorbell_recognition], called on the persons of a successful
    recognition, acts without that condition, for the person
    [doorbell_ring] would act for with [auto_open] set.  Both act only for
    an outcome that names an enrolled identity, with one of the three
    access levels and a confidence that reaches its threshold, itself at
    least 0.45; with no identity enrolled both act for nobody. *)
Theorem doorbell_opens_for_enrolled_match dist self frame encs auto_open :
  (forall p,
     doorbell_person (fst (recognize_face dist self frame encs)) auto_open
     = Some p ->
     auto_open = true /\
     name p <> "Unknown"%string /\
     In (name p) (dict_keys (person_encodings self)) /\
     In (out_access_level p) ["standard"; "admin"; "guest"]%string /\
     0.45 <= out_dynamic_threshold p /\
     out_dynamic_threshold p <= confidence p) /\
  (forall n recognized_persons,
     fst (recognize_face dist self frame encs) = RecOk n recognized_persons ->
     handle_doorbell_person recognized_persons
     = doorbell_person (RecOk n recognized_persons) true /\
     forall p,
       handle_doorbell_person recognized_persons = Some p ->
       name p <> "Unknown"%string /\
       In (name p) (dict_keys (person_encodings self)) /\
       In (out_access_level p) ["standard"; "admin"; "guest"]%string /\
       0.45 <= out_dynamic_threshold p /\
       out_dynamic_threshold p <= confidence p) /\
  (person_encodings self = [] ->
   doorbell_person (fst (recognize_face dist self frame encs)) auto_open = None /\
   forall n recognized_persons,
     fst (recognize_face dist self frame encs) = RecOk n recognized_persons ->
     handle_doorbell_person recognized_persons = None).
Proof.
  assert (Hhandle : forall n recognized_persons p,
    fst (recognize_face dist self frame encs) = RecOk n recognized_persons ->
    handle_doorbell_person recognized_persons = Some p ->
    name p <> "Unknown"%string /\
    In (name p) (dict_keys (person_encodings self)) /\
    In (out_access_level p) ["standard"; "admin"; "guest"]%string /\
    0.45 <= out_dynamic_threshold p /\
    out_dynamic_threshold p <= confidence p).
  { intros n outs p Er Hdoor.
    destruct (recognize_face dist self frame encs) as [r s'] eqn:Erec.
    simpl in Er. subst r.
    unfold handle_doorbell_person in Hdoor.
    destruct (authorized_persons outs) as [|person rest] eqn:Ea; [discriminate|].
    injection Hdoor as ->.
    exact (first_authorized_enrolled _ _ _ _ _ _ _ _ _ Erec Ea). }
  assert (Hring : forall p,
    doorbell_person (fst (recognize_face dist self frame encs)) auto_open
    = Some p ->
    auto_open = true /\
    handle_doorbell_person
      (match fst (recognize_face dist self frame encs) with
       | RecOk _ outs => outs
       | _ => []
       end) = Some p /\
    exists n outs, fst (recognize_face dist self frame encs) = RecOk n outs).
  { intros p Hdoor.
    destruct (fst (recognize_face dist self frame encs)) as [| |n outs];
      try discriminate.
    unfold doorbell_person in Hdoor. unfold handle_doorbell_person.
    destruct (authorized_persons outs) as [|person rest]; [discriminate|].
    destruct auto_open; [|discriminate].
    split; [reflexivity|]. split; [exact Hdoor|].
    exists n, outs. reflexivity. }
  assert (Hp : forall p,
    doorbell_person (fst (recognize_face dist self frame encs)) auto_open
    = Some p ->
    auto_open = true /\
    name p <> "Unknown"%string /\
    In (name p) (dict_keys (person_encodings self)) /\
    In (out_access_level p) ["standard"; "admin"; "guest"]%string /\
    0.45 <= out_dynamic_threshold p /\
    out_dynamic_threshold p <= confidence p).
  { intros p Hdoor.
    destruct (Hring p Hdoor) as (Hopen & Hh & n & outs & Er).
    split; [exact Hopen|].
    rewrite Er in Hh. exact (Hhandle n outs p Er Hh). }
  split; [exact Hp|].
  split.
  { intros n outs Er. split; [|intros p; exact (Hhandle n outs p Er)].
    unfold handle_doorbell_person, doorbell_person.
    destruct (authorized_persons outs); reflexivity. }
  intro Hempty. split.
  - destruct (doorbell_person (fst (recognize_face dist self frame encs)) auto_open)
      as [p|] eqn:Ed; [|reflexivity].
    destruct (Hp p eq_refl) as (_ & _ & Hin & _). rewrite Hempty in Hin.
    destruct Hin.
  - intros n outs Er.
    destruct (handle_doorbell_person outs) as [p|] eqn:Ed; [|reflexivity].
    destruct (Hhandle n outs p Er Ed) as (_ & Hin & _). rewrite Hempty in Hin.
    destruct Hin.
Qed.

Lemma doorbell_opens_for_enrolled_match_witness :
  exists n recognized_persons p,
    fst (recognize_face axis_distance one_identity doorstep_frame
           [embedding_on_axis 0]) = RecOk n recognized_persons /\
    doorbell_person (RecOk n recognized_persons) true = Some p /\
    doorbell_person (RecOk n recognized_persons) false = None /\
    handle_doorbell_person recognized_persons = Some p /\
    name p = "Alice"%string /\
    0.45 <= out_dynamic_threshold p.
Proof.
  eexists. eexists. eexists.
  split; [vm_compute; reflexivity|].
  split; [vm_compute; reflexivity|].
  split; [reflexivity|].
  split; [reflexivity|].
  split; [reflexivity|].
  destruct (doorbell_opens_for_enrolled_match axis_distance one_identity
              doorstep_frame [embedding_on_axis 0] true) as (Hring & _ & _).
  eapply Hring. vm_compute. reflexivity.
Defined.

(** ** Enrollment: what a success guarantees *)

Lemma dict_keys_set {V} k (v : V) (d : dict V) :
  In k (dict_keys (dict_set k v d)).
Proof.
  induction d as [|[k' v'] t IH]; simpl; [left; reflexivity|].
  destruct (String.eqb k' k) eqn:E; simpl.
  - left. apply String.eqb_eq. exact E.
  - right. exact IH.
Qed.

Lemma dict_get_set_other {V} k k' (v : V) (d : dict V) :
  k' <> k -> dict_get k' (dict_set k v d) = dict_get k' d.
Proof.
  intro Hne. induction d as [|[k0 v0] t IH]; simpl.
  - destruct (String.eqb k k') eqn:E; [|reflexivity].
    apply String.eqb_eq in E. congruence.
  - destruct (String.eqb k0 k) eqn:E; simpl.
    + apply String.eqb_eq in E. subst k0.
      destruct (String.eqb k k') eqn:E'; [|reflexivity].
      apply String.eqb_eq in E'. congruence.
    + rewrite IH. reflexivity.
Qed.


(** A successful enrollment, step by step. *)
Lemma add_known_person_ok dist self name image md now pc ec fc score tags self' :
  add_known_person dist self name (Some image) md now
  = (AddOk pc ec fc score tags, self') ->
  exists first rest q e s1 bytes,
    detect image = first :: rest /\
    _validate_face_quality image (choose_face first rest) = Some q /\
    0.6 <= quality_score q /\
    _extract_face_encoding image (choose_face first rest) = Some e /\
    store_encoding self name e = inl s1 /\
    jpeg image = Some bytes /\
    record_photo s1 name image (List.length (first :: rest)) q md now
    = (AddOk pc ec fc score tags, self').
Proof.
  unfold add_known_person.
  destruct (detect image) as [|first rest]; [discriminate|].
  destruct (_validate_face_quality image (choose_face first rest)) as [q|] eqn:Eq;
    [|discriminate].
  destruct (quality_score q <? 0.6) eqn:Eg; [discriminate|].
  apply Qltb_false in Eg.
  destruct (_extract_face_encoding image (choose_face first rest)) as [e|] eqn:Ee;
    [|discriminate].
  destruct (match dict_get name (person_encodings self) with
            | Some existing_encodings => _ | None => _ end); [discriminate|].
  destruct (store_encoding self name e) as [s1|s1] eqn:Es; [|discriminate].
  intro H. destruct (jpeg image) as [bytes|] eqn:Ej.
  - exists first, rest, q, e, s1, bytes.
    split; [reflexivity|]. split; [exact Eq|]. split; [exact Eg|].
    split; [exact Ee|]. split; [exact Es|]. split; [reflexivity | exact H].
  - unfold record_photo in H. rewrite Ej in H. discriminate.
Qed.

Lemma stored_list_length self name e :
  List.length (stored_list self name e) =
  match dict_get name (person_encodings self) with
  | None => 1%nat
  | Some existing =>
    if (max_faces_per_person <=? List.length existing)%nat
    then List.length existing else S (List.length existing)
  end.
Proof.
  unfold stored_list.
  destruct (dict_get name (person_encodings self)) as [existing|]; [|reflexivity].
  destruct (Nat.leb_spec max_faces_per_person (List.length existing)).
  - destruct existing; [simpl in *; unfold max_faces_per_person in *; lia|].
    reflexivity.
  - rewrite length_app. simpl. lia.
Qed.

Lemma encodings_of_set_metadata s md files name :
  encodings_of (set_metadata_and_files s md files) name = encodings_of s name.
Proof. reflexivity. Qed.

(** X10.  After a successful enrollment the reported encoding count is
    the number of embeddings now stored for the name: 1 for a new name,
    one more than before below capacity, unchanged at capacity; the
    reported person count is the number of identities; the name is
    listed; and the reference photo of the name is the picture just
    saved. *)
Theorem enrollment_success dist self name image md now pc ec fc score tags self' :
  add_known_person dist self name (Some image) md now
  = (AddOk pc ec fc score tags, self') ->
  ec = List.length (encodings_of self' name) /\
  (1 <= ec)%nat /\
  ec = match dict_get name (person_encodings self) with
       | None => 1%nat
       | Some existing =>
         if (max_faces_per_person <=? List.length existing)%nat
         then List.length existing else S (List.length existing)
       end /\
  pc = List.length (person_encodings self') /\
  In name (map pi_name (list_known_persons self')) /\
  jpeg image <> None /\
  get_person_photo self' name = jpeg image.
Proof.
  intro Hadd.
  destruct (add_known_person_ok _ _ _ _ _ _ _ _ _ _ _ _ Hadd)
    as (first & rest & q & e & s1 & bytes & _ & _ & _ & _ & Hs & Hj & Hrec).
  pose proof (store_encoding_result _ _ _ _ Hs) as Hpe.
  assert (Henc : encodings_of s1 name = stored_list self name e).
  { unfold encodings_of. rewrite Hpe, dict_get_set. reflexivity. }
  unfold record_photo in Hrec. rewrite Hj, Henc in Hrec.
  assert (Hsaved : exists m files,
            self' = set_metadata_and_files s1 m files /\
            ec = List.length (stored_list self name e) /\
            pc = List.length (person_encodings s1) /\
            match dict_get name m with
            | Some entry =>
              match rev (photo_paths_of entry) with
              | [] => None
              | photo_path :: _ => dict_get photo_path files
              end
            | None => None
            end = Some bytes).
  { destruct (dict_get name (known_faces_metadata s1)) as [m|];
      [destruct (photo_paths m) as [paths|]; [|discriminate]|];
      injection Hrec as <- <- _ _ _ <-;
      eexists; eexists; (split; [reflexivity|]);
      (split; [reflexivity|]); (split; [reflexivity|]);
      rewrite dict_get_set; unfold photo_paths_of; simpl;
      rewrite ?rev_unit; apply dict_get_set. }
  destruct Hsaved as (m & files & -> & -> & -> & Hphoto).
  rewrite encodings_of_set_metadata, Henc, stored_list_length.
  split; [reflexivity|].
  split.
  { destruct (dict_get name (person_encodings self)) as [existing|]; [|lia].
    destruct (Nat.leb_spec max_faces_per_person (List.length existing));
      unfold max_faces_per_person in *; lia. }
  split; [reflexivity|].
  split; [reflexivity|].
  split.
  { rewrite list_known_persons_names. simpl. rewrite Hpe. apply dict_keys_set. }
  split; [rewrite Hj; discriminate|].
  rewrite Hj. unfold get_person_photo. simpl. exact Hphoto.
Qed.

Lemma enrollment_success_witness :
  exists self',
    add_known_person axis_distance new_engine "Alice"
      (Some (picture large_face (embedding_on_axis 0) (Some "jpeg"%string)))
      None "2024-01-01T00:00:00"
    = (AddOk 1 1 1 1.0 [], self') /\
    get_person_photo self' "Alice" = Some "jpeg"%string.
Proof.
  eexists. split; [vm_compute; reflexivity|].
  eapply (enrollment_success axis_distance new_engine "Alice"%string
            (picture large_face (embedding_on_axis 0) (Some "jpeg"%string))
            None "2024-01-01T00:00:00"%string).
  vm_compute. reflexivity.
Defined.

(** ** Invariants of the store *)

Lemma Forall_dict_set {V} (Q : V -> Prop) k v (d : dict V) :
  Forall (fun entry => Q (snd entry)) d -> Q v ->
  Forall (fun entry => Q (snd entry)) (dict_set k v d).
Proof.
  intros Hd Hv. induction d as [|[k' v'] t IH]; simpl.
  - constructor; [exact Hv | constructor].
  - inversion Hd; subst.
    destruct (String.eqb k' k); constructor; auto.
Qed.

Lemma Forall_dict_del {V} (P : string * V -> Prop) k (d : dict V) :
  Forall P d -> Forall P (dict_del k d).
Proof.
  intro Hd. induction d as [|[k' v'] t IH]; simpl; [constructor|].
  inversion Hd; subst.
  destruct (String.eqb k' k); [auto | constructor; auto].
Qed.

Lemma dict_get_In {V} k (d : dict V) v :
  dict_get k d = Some v -> exists k', In (k', v) d.
Proof.
  induction d as [|[k' v'] t IH]; simpl; [discriminate|].
  destruct (String.eqb k' k).
  - intro H. injection H as ->. exists k'. left. reflexivity.
  - intro H. destruct (IH H) as [k0 Hin]. exists k0. right. exact Hin.
Qed.

Lemma remove_known_person_persons self unlink_fails who r self' :
  remove_known_person self unlink_fails who = (r, self') ->
  person_encodings self' = person_encodings self \/
  person_encodings self' = dict_del who (person_encodings self).
Proof.
  unfold remove_known_person.
  destruct (dict_mem who (person_encodings self)); simpl.
  2:{ intro H. injection H as _ <-. left. reflexivity. }
  destruct (delete_indices _ _ _) as [[e nm]|[e nm]].
  - destruct (match dict_get who (known_faces_metadata self) with
              | Some m => _ | None => _ end) as [md files].
    intro H. injection H as _ <-. right. reflexivity.
  - intro H. injection H as _ <-. left. reflexivity.
Qed.

(** X11.  Enrollment and removal keep every identity between 1 and 4
    embeddings, whatever their result. *)
Theorem capacity_preserved self :
  within_capacity self ->
  (forall dist name photo md now,
     within_capacity (snd (add_known_person dist self name photo md now))) /\
  (forall unlink_fails name,
     within_capacity (snd (remove_known_person self unlink_fails name))).
Proof.
  intro Hcap. split.
  - intros dist name photo md now.
    destruct (add_known_person dist self name photo md now) as [r self'] eqn:Eadd.
    simpl.
    assert (Hstore : forall e s1, store_encoding self name e = inl s1 ->
                                  within_capacity s1).
    { intros e s1 Hs. unfold within_capacity.
      rewrite (store_encoding_result _ _ _ _ Hs).
      apply (Forall_dict_set
               (fun l => (1 <= List.length l <= max_faces_per_person)%nat));
        [exact Hcap|].
      rewrite stored_list_length.
      destruct (dict_get name (person_encodings self)) as [existing|] eqn:Eg;
        [|unfold max_faces_per_person; lia].
      destruct (dict_get_In _ _ _ Eg) as [k' Hin].
      unfold within_capacity in Hcap. rewrite Forall_forall in Hcap.
      specialize (Hcap _ Hin). simpl in Hcap.
      destruct (Nat.leb_spec max_faces_per_person (List.length existing)); lia. }
    destruct (add_known_person_state _ _ _ _ _ _ _ _ Eadd)
      as [->|[e [s1 [Hs [->|[m [files ->]]]]]]].
    + exact Hcap.
    + exact (Hstore e s1 Hs).
    + exact (Hstore e s1 Hs).
  - intros unlink_fails name.
    destruct (remove_known_person self unlink_fails name) as [r self'] eqn:Erm.
    simpl. unfold within_capacity.
    destruct (remove_known_person_persons _ _ _ _ _ Erm) as [->| ->];
      [exact Hcap | apply Forall_dict_del; exact Hcap].
Qed.

Lemma capacity_preserved_witness :
  within_capacity one_identity /\
  within_capacity (snd (enroll one_identity "Alice" 0.01)).
Proof.
  assert (H : within_capacity one_identity).
  { unfold within_capacity. vm_compute. constructor; [lia | constructor]. }
  split; [exact H|].
  apply (capacity_preserved one_identity H).
Defined.

Lemma dict_get_del_other {V} k k' (d : dict V) :
  k' <> k -> dict_get k' (dict_del k d) = dict_get k' d.
Proof.
  intro Hne. induction d as [|[k0 v0] t IH]; simpl; [reflexivity|].
  destruct (String.eqb k0 k) eqn:E; simpl.
  - apply String.eqb_eq in E. subst k0.
    destruct (String.eqb k k') eqn:E'; [|exact IH].
    apply String.eqb_eq in E'. congruence.
  - rewrite IH. reflexivity.
Qed.

Lemma combine_snoc {A B} (l : list A) (m : list B) x y :
  List.length l = List.length m ->
  combine (l ++ [x]) (m ++ [y]) = combine l m ++ [(x, y)].
Proof.
  revert m. induction l as [|a t IH]; intros [|b u] H; simpl in *;
    try discriminate; [reflexivity|].
  injection H as H. rewrite (IH u H). reflexivity.
Qed.

Lemma flat_of_snoc n encs names e name :
  List.length encs = List.length names ->
  flat_of n (encs ++ [e]) (names ++ [name])
  = flat_of n encs names ++ (if String.eqb name n then [e] else []).
Proof.
  intro H. unfold flat_of. rewrite (combine_snoc _ _ _ _ H), filter_app, map_app.
  simpl. destruct (String.eqb name n); reflexivity.
Qed.

Lemma flat_of_assign name e : forall names encs idx encs',
  list_index name names = Some idx ->
  list_assign idx e encs = Some encs' ->
  flat_of name encs' names = e :: tl (flat_of name encs names) /\
  forall n, n <> name -> flat_of n encs' names = flat_of n encs names.
Proof.
  unfold flat_of.
  induction names as [|y t IH]; intros encs idx encs' Hidx Hassign;
    [discriminate|].
  simpl in Hidx. destruct (String.eqb y name) eqn:Ey.
  - injection Hidx as <-. destruct encs as [|x encs_t]; [discriminate|].
    simpl in Hassign. injection Hassign as <-. simpl. rewrite Ey. simpl.
    split; [reflexivity|].
    intros n Hn. apply String.eqb_eq in Ey. subst y.
    destruct (String.eqb name n) eqn:En; [|reflexivity].
    apply String.eqb_eq in En. congruence.
  - destruct (list_index name t) as [j|] eqn:Ej; [|discriminate].
    injection Hidx as <-. destruct encs as [|x encs_t]; [discriminate|].
    simpl in Hassign.
    destruct (list_assign j e encs_t) as [encs_t'|] eqn:Ea; [|discriminate].
    injection Hassign as <-.
    destruct (IH encs_t j encs_t' eq_refl Ea) as [IH1 IH2].
    simpl. rewrite Ey. split; [exact IH1|].
    intros n Hn. destruct (String.eqb y n); simpl; rewrite (IH2 n Hn); reflexivity.
Qed.

Lemma flat_of_removed name n (ps : list (Embedding * string)) :
  map fst (filter (fun entry => String.eqb (snd entry) n)
             (filter (other_than name) ps))
  = if String.eqb n name then []
    else map fst (filter (fun entry => String.eqb (snd entry) n) ps).
Proof.
  induction ps as [|[e y] t IH]; simpl; [destruct (String.eqb n name); reflexivity|].
  unfold other_than at 1. simpl.
  destruct (String.eqb y name) eqn:Ey; simpl.
  - rewrite IH. destruct (String.eqb n name) eqn:En; [reflexivity|].
    destruct (String.eqb y n) eqn:Eyn; [|reflexivity].
    apply String.eqb_eq in Ey, Eyn. subst. rewrite String.eqb_refl in En.
    discriminate.
  - destruct (String.eqb y n) eqn:Eyn; simpl; rewrite IH.
    + destruct (String.eqb n name) eqn:En; [|reflexivity].
      apply String.eqb_eq in Eyn, En. subst. rewrite String.eqb_refl in Ey.
      discriminate.
    + reflexivity.
Qed.

(** The flat lists after [store_encoding]: one entry appended, or the
    first entry of the name overwritten. *)
Lemma store_encoding_flat self name e s1 :
  store_encoding self name e = inl s1 ->
  (known_face_encodings s1 = known_face_encodings self ++ [e] /\
   known_face_names s1 = known_face_names self ++ [name] /\
   stored_list self name e = encodings_of self name ++ [e]) \/
  (exists idx,
     list_index name (known_face_names self) = Some idx /\
     list_assign idx e (known_face_encodings self)
     = Some (known_face_encodings s1) /\
     known_face_names s1 = known_face_names self /\
     stored_list self name e = e :: tl (encodings_of self name)).
Proof.
  unfold store_encoding, stored_list, encodings_of.
  destruct (dict_get name (person_encodings self)) as [existing|].
  - destruct (max_faces_per_person <=? List.length existing)%nat.
    + destruct (list_index name (known_face_names self)) as [idx|]; [|discriminate].
      destruct (list_assign idx e (known_face_encodings self)) as [encs'|] eqn:Ea;
        [|discriminate].
      destruct (list_assign 0 e existing); [|discriminate].
      intro K; injection K as <-. right. exists idx. simpl.
      repeat split; [exact Ea].
    + intro K; injection K as <-. left. simpl. repeat split.
  - intro K; injection K as <-. left. simpl. repeat split.
Qed.

Lemma store_encoding_agree self name e s1 :
  stores_agree self ->
  store_encoding self name e = inl s1 ->
  stores_agree s1.
Proof.
  intros [Hlen Hagree] Hs.
  split; [exact (store_encoding_lengths _ _ _ _ Hlen Hs)|].
  intro n.
  assert (Hn : encodings_of s1 n =
               if String.eqb name n then stored_list self name e
               else encodings_of self n).
  { unfold encodings_of. rewrite (store_encoding_result _ _ _ _ Hs).
    destruct (String.eqb name n) eqn:En.
    - apply String.eqb_eq in En. subst n. rewrite dict_get_set. reflexivity.
    - apply String.eqb_neq in En.
      rewrite dict_get_set_other by congruence. reflexivity. }
  rewrite Hn.
  destruct (store_encoding_flat _ _ _ _ Hs)
    as [(He & Hnm & Hsl)|(idx & Hidx & Ha & Hnm & Hsl)].
  - rewrite He, Hnm, (flat_of_snoc _ _ _ _ _ Hlen), Hagree, Hsl.
    destruct (String.eqb name n) eqn:En.
    + apply String.eqb_eq in En. subst n. reflexivity.
    + apply app_nil_r.
  - rewrite Hnm. destruct (flat_of_assign name e _ _ _ _ Hidx Ha) as [F1 F2].
    destruct (String.eqb name n) eqn:En.
    + apply String.eqb_eq in En. subst n. rewrite F1, Hagree, Hsl. reflexivity.
    + apply String.eqb_neq in En. rewrite F2 by congruence. apply Hagree.
Qed.

(** X12.  Enrollment and removal keep the two representations of the
    store in agreement: the two flat lists have the same length and, for
    every name, the embeddings they hold for it are, in order, the list
    kept under that name. *)
Theorem stores_agree_preserved self :
  stores_agree self ->
  (forall dist name photo md now,
     stores_agree (snd (add_known_person dist self name photo md now))) /\
  (forall unlink_fails name,
     stores_agree (snd (remove_known_person self unlink_fails name))).
Proof.
  intro Hagree. split.
  - intros dist name photo md now.
    destruct (add_known_person dist self name photo md now) as [r self'] eqn:Eadd.
    simpl.
    destruct (add_known_person_state _ _ _ _ _ _ _ _ Eadd)
      as [->|[e [s1 [Hs [->|[m [files ->]]]]]]].
    + exact Hagree.
    + exact (store_encoding_agree _ _ _ _ Hagree Hs).
    + exact (store_encoding_agree _ _ _ _ Hagree Hs).
  - intros unlink_fails name. destruct Hagree as [Hlen Hagree].
    unfold remove_known_person.
    destruct (dict_mem name (person_encodings self)); simpl;
      [|split; assumption].
    destruct (combine_split_maps _ _ Hlen) as [Hf Hs].
    pose proof (delete_indices_filter name
                  (combine (known_face_encodings self) (known_face_names self)))
      as Hdel.
    rewrite Hf, Hs in Hdel. rewrite Hdel.
    destruct (match dict_get name (known_faces_metadata self) with
              | Some m => _ | None => _ end) as [md files].
    simpl. split; [simpl; rewrite !length_map; reflexivity|].
    intro n. simpl. unfold flat_of. rewrite combine_of_maps, flat_of_removed.
    unfold encodings_of. simpl.
    destruct (String.eqb n name) eqn:En.
    + apply String.eqb_eq in En. subst n. rewrite dict_get_del. reflexivity.
    + apply String.eqb_neq in En. rewrite dict_get_del_other by exact En.
      apply Hagree.
Qed.

Lemma stores_agree_preserved_witness :
  stores_agree new_engine /\ stores_agree one_identity.
Proof.
  assert (H : stores_agree new_engine).
  { split; [reflexivity | intro name; reflexivity]. }
  split; [exact H|].
  apply (stores_agree_preserved new_engine H).
Defined.

(** ** Legacy storage, threshold setter, ranking, face choice *)

(** [dict_append] adds to the list of its name and to no other. *)
Lemma dict_append_get n name e (d : dict (list Embedding)) :
  match dict_get n (dict_append name e d) with Some l => l | None => [] end
  = match dict_get n d with Some l => l | None => [] end
    ++ (if String.eqb name n then [e] else []).
Proof.
  unfold dict_append. destruct (String.eqb name n) eqn:En.
  - apply String.eqb_eq in En. subst n. rewrite dict_get_set. reflexivity.
  - apply String.eqb_neq in En.
    rewrite dict_get_set_other by congruence. rewrite app_nil_r. reflexivity.
Qed.

Lemma group_by_person_get n : forall ps d,
  match dict_get n
          (fold_left (fun d '(encoding, name) => dict_append name encoding d) ps d)
  with Some l => l | None => [] end
  = match dict_get n d with Some l => l | None => [] end
    ++ map fst (filter (fun entry => String.eqb (snd entry) n) ps).
Proof.
  induction ps as [|[e y] t IH]; intro d; simpl.
  - rewrite app_nil_r. reflexivity.
  - rewrite IH, dict_append_get, <- app_assoc.
    destruct (String.eqb y n); reflexivity.
Qed.

(** X13.  Loading the legacy format into a new engine keeps the two
    lists as they were read and groups the encodings by name, in order;
    when the two lists have the same length the two representations
    agree. *)
Theorem legacy_load_groups_by_name encodings names legacy_metadata :
  let self := _load_legacy_format new_engine (Some (encodings, names))
                legacy_metadata in
  known_face_encodings self = encodings /\
  known_face_names self = names /\
  (forall name, encodings_of self name = flat_of name encodings names) /\
  (List.length encodings = List.length names -> stores_agree self).
Proof.
  intro self.
  assert (H : forall name, encodings_of self name = flat_of name encodings names).
  { intro n. subst self. unfold encodings_of, flat_of. simpl.
    unfold group_by_person. rewrite group_by_person_get. reflexivity. }
  split; [reflexivity|]. split; [reflexivity|]. split; [exact H|].
  intro Hlen. split; [exact Hlen|]. intro n. symmetry. apply H.
Qed.

(** X14.  The setter accepts a base threshold only within [0.1, 1.0],
    stores it and leaves the identity store alone; and a higher base
    threshold never gives a lower effective threshold for the same quality
    report. *)
Theorem threshold_setter_monotone self t1 t2 s1 s2 q :
  update_confidence_threshold self t1 = Some s1 ->
  update_confidence_threshold self t2 = Some s2 ->
  t1 <= t2 ->
  (0.1 <= t1 <= 1.0) /\
  confidence_threshold s1 = t1 /\
  store s1 = store self /\
  _get_dynamic_threshold s1 q <= _get_dynamic_threshold s2 q.
Proof.
  unfold update_confidence_threshold.
  destruct ((0.1 <=? t1) && (t1 <=? 1.0)) eqn:E1; [|discriminate].
  destruct ((0.1 <=? t2) && (t2 <=? 1.0)) eqn:E2; [|discriminate].
  simpl. intros H1 H2 Hle. injection H1 as <-. injection H2 as <-.
  apply andb_true_iff in E1. destruct E1 as [Ea Eb].
  apply Qleb_true in Ea, Eb.
  split; [split; assumption|]. split; [reflexivity|]. split; [reflexivity|].
  unfold _get_dynamic_threshold. simpl negb. cbv iota zeta. simpl confidence_threshold.
  apply Q.max_le_compat_l. apply Q.min_le_compat_l. lra.
Qed.

Lemma threshold_setter_monotone_witness :
  exists s1 s2,
    update_confidence_threshold new_engine 0.5 = Some s1 /\
    update_confidence_threshold new_engine 0.6 = Some s2 /\
    _get_dynamic_threshold s1 (mkQuality 0.75 [] true 128 50 150)
    <= _get_dynamic_threshold s2 (mkQuality 0.75 [] true 128 50 150).
Proof.
  eexists. eexists. split; [reflexivity|]. split; [reflexivity|].
  eapply (threshold_setter_monotone new_engine 0.5 0.6);
    [reflexivity | reflexivity | lra].
Defined.

Lemma insert_desc_perm x l : Permutation (insert_desc x l) (x :: l).
Proof.
  induction l as [|y t IH]; simpl; [apply Permutation_refl|].
  destruct (tuple_lt x y); [|apply Permutation_refl].
  eapply Permutation_trans; [apply perm_skip; exact IH | apply perm_swap].
Qed.

Lemma sort_desc_perm l : Permutation (sort_desc l) l.
Proof.
  induction l as [|x t IH]; simpl; [constructor|].
  eapply Permutation_trans; [apply insert_desc_perm | apply perm_skip; exact IH].
Qed.

Lemma tuple_lt_true a b : tuple_lt a b = true -> fst a <= fst b.
Proof.
  unfold tuple_lt. intro H. apply orb_true_iff in H. destruct H as [H|H].
  - apply Qltb_true in H. lra.
  - apply andb_true_iff in H. destruct H as [H _].
    apply Qeq_bool_iff in H. lra.
Qed.

Lemma tuple_lt_false a b : tuple_lt a b = false -> fst b <= fst a.
Proof.
  unfold tuple_lt. intro H. apply orb_false_iff in H. destruct H as [H _].
  apply Qltb_false in H. exact H.
Qed.

Lemma insert_desc_sorted x l :
  StronglySorted (fun a b => fst b <= fst a) l ->
  StronglySorted (fun a b => fst b <= fst a) (insert_desc x l).
Proof.
  induction l as [|y t IH]; intro Hs; simpl.
  - constructor; constructor.
  - inversion Hs as [|? ? Hst Hall]; subst.
    destruct (tuple_lt x y) eqn:E.
    + constructor; [apply IH; exact Hst|].
      apply Forall_forall. intros z Hz.
      apply (Permutation_in _ (insert_desc_perm x t)) in Hz.
      destruct Hz as [<-|Hz]; [apply tuple_lt_true; exact E|].
      rewrite Forall_forall in Hall. apply Hall. exact Hz.
    + constructor; [exact Hs|].
      apply tuple_lt_false in E.
      constructor; [exact E|].
      rewrite Forall_forall in *. intros z Hz.
      eapply Qle_trans; [apply Hall; exact Hz | exact E].
Qed.

Lemma sort_desc_sorted l :
  StronglySorted (fun a b => fst b <= fst a) (sort_desc l).
Proof.
  induction l as [|x t IH]; simpl; [constructor|].
  apply insert_desc_sorted. exact IH.
Qed.

(** X15.  The ranking used by the ambiguity check is a permutation of
    the scores in descending order: the first score is at least the score
    of every identity, and with two identities or more the second score is
    at most the first. *)
Theorem first_score_is_best dist self enc :
  Permutation (sort_desc (all_scores dist self enc)) (all_scores dist self enc) /\
  StronglySorted (fun a b => fst b <= fst a)
    (sort_desc (all_scores dist self enc)) /\
  (forall who,
     In who (dict_keys (person_encodings self)) ->
     _calculate_similarity_score dist self enc who <= first_score dist self enc) /\
  ((2 <= List.length (person_encodings self))%nat ->
   second_score dist self enc <= first_score dist self enc).
Proof.
  pose proof (sort_desc_perm (all_scores dist self enc)) as Hp.
  pose proof (sort_desc_sorted (all_scores dist self enc)) as Hs.
  split; [exact Hp|]. split; [exact Hs|].
  unfold first_score, second_score.
  split.
  - intros who Hin.
    assert (Hin' : In (_calculate_similarity_score dist self enc who, who)
                     (sort_desc (all_scores dist self enc))).
    { apply (Permutation_in _ (Permutation_sym Hp)).
      unfold all_scores. apply in_map_iff. exists who. split; [reflexivity | exact Hin]. }
    destruct (sort_desc (all_scores dist self enc)) as [|a t]; [destruct Hin'|].
    simpl. inversion Hs as [|? ? _ Hall]; subst.
    destruct Hin' as [->|Hin']; [simpl; lra|].
    rewrite Forall_forall in Hall. apply (Hall _ Hin').
  - intro Hlen.
    assert (Hl : (2 <= List.length (sort_desc (all_scores dist self enc)))%nat).
    { rewrite sort_desc_length. unfold all_scores, dict_keys.
      rewrite !length_map. exact Hlen. }
    destruct (sort_desc (all_scores dist self enc)) as [|a [|b t]];
      [simpl in Hl; lia | simpl in Hl; lia |].
    simpl. inversion Hs as [|? ? _ Hall]; subst.
    inversion Hall as [|? ? Hb _]; subst. exact Hb.
Qed.

Lemma argmax_from_spec (full : list Z) : forall l pre best besti,
  full = pre ++ l ->
  (besti < List.length pre)%nat ->
  nth besti full 0%Z = best ->
  (forall x, In x pre -> (x <= best)%Z) ->
  (np.argmax_from best besti (List.length pre) l < List.length full)%nat /\
  forall x, In x full ->
    (x <= nth (np.argmax_from best besti (List.length pre) l) full 0)%Z.
Proof.
  induction l as [|x t IH]; intros pre best besti Hfull Hi Hnth Hpre; simpl.
  - rewrite app_nil_r in Hfull. subst full. split; [exact Hi|].
    intros x Hx. rewrite Hnth. apply Hpre. exact Hx.
  - assert (Hfull' : full = (pre ++ [x]) ++ t)
      by (rewrite <- app_assoc; exact Hfull).
    assert (Hlen : List.length (pre ++ [x]) = S (List.length pre))
      by (rewrite length_app; simpl; lia).
    destruct (Z.ltb_spec best x) as [Hlt|Hge].
    + rewrite <- Hlen. apply IH; [exact Hfull' | lia | |].
      * rewrite Hfull. apply nth_middle.
      * intros y Hy. apply in_app_iff in Hy. destruct Hy as [Hy|[<-|[]]]; [|lia].
        specialize (Hpre y Hy). lia.
    + rewrite <- Hlen. apply IH; [exact Hfull' | lia | exact Hnth |].
      intros y Hy. apply in_app_iff in Hy. destruct Hy as [Hy|[<-|[]]]; [|lia].
      apply Hpre. exact Hy.
Qed.

(** X16.  With several faces in a picture, enrollment uses one of the
    detected faces, and none of them is larger. *)
Theorem choose_face_largest first rest :
  In (choose_face first rest) (first :: rest) /\
  forall face, In face (first :: rest) ->
    (area face <= area (choose_face first rest))%Z.
Proof.
  unfold choose_face.
  destruct rest as [|second rest].
  { simpl. split; [left; reflexivity|]. intros face [<-|[]]. lia. }
  set (faces := first :: second :: rest).
  replace (1 <? List.length faces)%nat with true
    by (symmetry; apply Nat.ltb_lt; simpl; lia).
  change (map (fun '(top, right_, bottom, left_) =>
                 ((right_ - left_) * (bottom - top))%Z) faces)
    with (map area faces).
  set (sizes := map area faces).
  assert (Hspec : (np.argmax sizes < List.length sizes)%nat /\
                  forall x, In x sizes -> (x <= nth (np.argmax sizes) sizes 0)%Z).
  { subst sizes faces. simpl map. unfold np.argmax.
    apply (argmax_from_spec _ _ [area first] (area first) 0%nat);
      [reflexivity | simpl; lia | reflexivity |].
    intros x [<-|[]]. lia. }
  destruct Hspec as [Hlt Hmax].
  assert (Hlt' : (np.argmax sizes < List.length faces)%nat)
    by (subst sizes; rewrite length_map in Hlt; exact Hlt).
  split; [apply nth_In; exact Hlt'|].
  intros face Hin.
  assert (Harea : area (nth (np.argmax sizes) faces first)
                  = nth (np.argmax sizes) sizes 0%Z).
  { subst sizes. rewrite (nth_indep _ 0%Z (area first)) by exact Hlt.
    symmetry. apply map_nth. }
  rewrite Harea. apply Hmax. subst sizes. apply in_map. exact Hin.
Qed.

(** ** Recognition of an identity's own embedding *)

Section Winner.

Variable dist : Embedding -> Embedding -> Q.
Variable self : Engine.
Variable enc : Embedding.
Variable thr : Q.
Variable who : string.

Hypothesis who_full : _calculate_similarity_score dist self enc who == 1.
Hypothesis thr_le : thr <= 1.

(** Once the identity with the full score has been met it stays chosen;
    before that the best similarity is below 1. *)
Lemma score_fold_winner keys : forall acc,
  (forall k, In k keys -> k <> who ->
             _calculate_similarity_score dist self enc k < 1) ->
  let out := fold_left (score_step dist self enc thr) keys acc in
  ((snd (fst acc) = who /\
    snd (fst (fst acc)) = _calculate_similarity_score dist self enc who /\
    snd acc = dict_get who (known_faces_metadata self)) ->
   (snd (fst out) = who /\
    snd (fst (fst out)) = _calculate_similarity_score dist self enc who /\
    snd out = dict_get who (known_faces_metadata self))) /\
  (snd (fst (fst acc)) < 1 -> In who keys ->
   (snd (fst out) = who /\
    snd (fst (fst out)) = _calculate_similarity_score dist self enc who /\
    snd out = dict_get who (known_faces_metadata self))).
Proof.
  induction keys as [|k keys IH]; intros acc Hothers; simpl.
  - split; [exact (fun H => H) | intros _ []].
  - assert (Hrest : forall k0, In k0 keys -> k0 <> who ->
                      _calculate_similarity_score dist self enc k0 < 1)
      by (intros k0 Hk0; apply Hothers; right; exact Hk0).
    destruct acc as [[[bs sim] nm] md]. simpl.
    destruct (IH (score_step dist self enc thr (bs, sim, nm, md) k) Hrest)
      as [IHb IHa].
    split.
    + intros (Hn & Hs & Hm). apply IHb.
      unfold score_step.
      destruct (sim <? _calculate_similarity_score dist self enc k) eqn:E1;
        [|simpl; repeat split; assumption].
      apply Qltb_true in E1. exfalso.
      destruct (String.eqb k who) eqn:Ek.
      * apply String.eqb_eq in Ek. subst k. rewrite Hs in E1. lra.
      * apply String.eqb_neq in Ek.
        pose proof (Hothers k (or_introl eq_refl) Ek). rewrite Hs in E1. lra.
    + intros Hlt [Hk|Hin].
      * subst k. apply IHb. unfold score_step.
        replace (sim <? _calculate_similarity_score dist self enc who) with true
          by (symmetry; apply Qltb_true; lra).
        replace (thr <=? _calculate_similarity_score dist self enc who) with true
          by (symmetry; apply Qleb_true; lra).
        simpl. repeat split.
      * destruct (String.eqb k who) eqn:Ek.
        { apply String.eqb_eq in Ek. subst k. apply IHb. unfold score_step.
          replace (sim <? _calculate_similarity_score dist self enc who) with true
            by (symmetry; apply Qltb_true; lra).
          replace (thr <=? _calculate_similarity_score dist self enc who) with true
            by (symmetry; apply Qleb_true; lra).
          simpl. repeat split. }
        apply String.eqb_neq in Ek.
        pose proof (Hothers k (or_introl eq_refl) Ek) as Hk1.
        apply IHa; [|exact Hin].
        unfold score_step.
        destruct (sim <? _calculate_similarity_score dist self enc k);
          [destruct (thr <=? _calculate_similarity_score dist self enc k)|];
          simpl; assumption.
Qed.

End Winner.

Lemma dict_get_key {V} k (d : dict V) v :
  dict_get k d = Some v -> In k (dict_keys d).
Proof.
  induction d as [|[k' v'] t IH]; simpl; [discriminate|].
  destruct (String.eqb k' k) eqn:E.
  - intros _. left. apply String.eqb_eq. exact E.
  - intro H. right. exact (IH H).
Qed.

(** The head of the ranking is at least every score. *)
Lemma sort_desc_head l s n :
  In (s, n) l ->
  match sort_desc l with
  | a :: _ => s <= fst a
  | [] => False
  end.
Proof.
  intro Hin.
  apply (Permutation_in _ (Permutation_sym (sort_desc_perm l))) in Hin.
  pose proof (sort_desc_sorted l) as Hs.
  destruct (sort_desc l) as [|a t]; [exact Hin|].
  inversion Hs as [|? ? _ Hall]; subst.
  destruct Hin as [->|Hin]; [simpl; lra|].
  rewrite Forall_forall in Hall. exact (Hall _ Hin).
Qed.

Lemma similarity_of_own dist reference enc :
  dist reference enc == 0 -> similarity_of dist [reference] enc == 1.
Proof.
  intro Hd. unfold similarity_of. simpl. unfold np.min. simpl.
  destruct (distance_to_similarity_cases (dist reference enc))
    as [[? ->]|[[? _]|[[? _]|[[? _]|[[? _]|[? _]]]]]]; lra.
Qed.

Lemma decide_face_own dist self enc q who reference :
  dict_get who (person_encodings self) = Some [reference] ->
  dist reference enc == 0 ->
  (forall k, In k (dict_keys (person_encodings self)) -> k <> who ->
             _calculate_similarity_score dist self enc k < 1) ->
  let '(s, n, m) := decide_face dist self enc q in
  n = who /\ 0.9 <= s <= 1 /\ m = dict_get who (known_faces_metadata self).
Proof.
  intros Hget Hd Hothers.
  assert (Hfull : _calculate_similarity_score dist self enc who == 1).
  { unfold _calculate_similarity_score. rewrite Hget.
    apply similarity_of_own. exact Hd. }
  pose proof (dict_get_key _ _ _ Hget) as Hkey.
  pose proof (get_dynamic_threshold_range self q) as Hthr.
  unfold decide_face.
  set (thr := _get_dynamic_threshold self q) in *.
  assert (Hthr1 : thr <= 1) by lra.
  destruct (person_encodings self) as [|p ps] eqn:Ep; [destruct Hkey|].
  rewrite <- Ep in *. clear Ep p ps.
  pose proof (score_all_scores dist self enc thr) as Hbs.
  assert (Hwin :
    snd (fst (score_all dist self enc thr)) = who /\
    snd (fst (fst (score_all dist self enc thr)))
    = _calculate_similarity_score dist self enc who /\
    snd (score_all dist self enc thr) = dict_get who (known_faces_metadata self)).
  { unfold score_all.
    apply (score_fold_winner dist self enc thr who Hfull Hthr1
             (dict_keys (person_encodings self)) _ Hothers);
      [simpl; lra | exact Hkey]. }
  destruct (score_all dist self enc thr) as [[[bs sim] nm] md].
  simpl in Hbs, Hwin. destruct Hwin as (-> & -> & ->). subst bs.
  set (sw := _calculate_similarity_score dist self enc who) in *.
  unfold validate_layers12.
  replace (sw <? thr) with false by (symmetry; apply Qltb_false; lra).
  assert (Hpass :
    let '(s, n, m) :=
      (let '(best_similarity, best_match_name, best_metadata) :=
         validate_layer3 q thr
           (true, sw, who, dict_get who (known_faces_metadata self)) in
       (if negb (String.eqb best_match_name Unknown)
        then _apply_temporal_consistency self best_match_name best_similarity
        else best_similarity, best_match_name, best_metadata)) in
    n = who /\ 0.9 <= s <= 1 /\ m = dict_get who (known_faces_metadata self)).
  { unfold validate_layer3. simpl andb.
    destruct (String.eqb who Unknown) eqn:En; simpl negb; cbv iota.
    - rewrite En. simpl. split; [reflexivity|]. split; [lra | reflexivity].
    - set (adj := if 0.8 <? quality_score q then Qmin 1.0 (sw * 1.02)
                  else if quality_score q <? 0.5 then sw * 0.9 else sw).
      assert (Hadj : 0.9 <= adj <= 1).
      { subst adj. destruct (0.8 <? quality_score q).
        - split; [apply Q.min_glb; lra|].
          eapply Qle_trans; [apply Q.le_min_l | lra].
        - destruct (quality_score q <? 0.5); lra. }
      replace (adj <? thr) with false by (symmetry; apply Qltb_false; lra).
      rewrite En. simpl negb. cbv iota.
      destruct (apply_temporal_consistency_bounds self who adj)
        as (_ & T1 & Tmin & _).
      split; [reflexivity|]. split; [|reflexivity].
      split; [|apply T1; lra].
      eapply Qle_trans; [|exact Tmin]. apply Q.min_glb; lra. }
  pose proof (sort_desc_head (all_scores dist self enc) sw who) as Hhead.
  destruct (sort_desc (all_scores dist self enc))
    as [|[first_score n1] [|[second_score n2] rest]]; try exact Hpass.
  assert (Hf : sw <= first_score).
  { apply Hhead. unfold all_scores. apply in_map_iff.
    exists who. split; [reflexivity | exact Hkey]. }
  replace (first_score <? 0.85) with false by (symmetry; apply Qltb_false; lra).
  rewrite andb_false_r. exact Hpass.
Qed.

(** X17.  A face whose encoding is at distance 0 from the single
    reference of an identity, while every other identity scores below 1,
    is reported under that identity's name with a confidence between 0.9
    and 1 and with its metadata, whatever the quality (above the gate) and
    the history. *)
Theorem own_embedding_recognized dist self image enc loc q who reference :
  dict_get who (person_encodings self) = Some [reference] ->
  dist reference enc == 0 ->
  (forall k, In k (dict_keys (person_encodings self)) -> k <> who ->
             _calculate_similarity_score dist self enc k < 1) ->
  _validate_face_quality image loc = Some q ->
  ~ quality_score q < 0.3 ->
  exists o self',
    recognize_one dist self image enc loc = Some (Some o, self') /\
    name o = who /\
    0.9 <= confidence o <= 1 /\
    metadata o = dict_get who (known_faces_metadata self).
Proof.
  intros Hget Hd Hothers Hq Hgate.
  pose proof (decide_face_own dist self enc q who reference Hget Hd Hothers) as H.
  unfold recognize_one. rewrite Hq.
  destruct (quality_score q <? 0.3) eqn:E.
  { apply Qltb_true in E. contradiction. }
  destruct (decide_face dist self enc q) as [[s n] m].
  destruct H as (-> & Hs & ->).
  eexists. eexists. split; [reflexivity|]. simpl.
  split; [reflexivity|]. split; [exact Hs | reflexivity].
Qed.

Lemma own_embedding_recognized_witness :
  let probe := embedding_on_axis 0 in
  let image := picture large_face probe None in
  axis_distance (embedding_on_axis 0) probe == 0 /\
  exists o self',
    recognize_one axis_distance one_identity image probe large_face
    = Some (Some o, self') /\
    name o = "Alice"%string /\
    0.9 <= confidence o <= 1.
Proof.
  intros probe image.
  assert (Hd : axis_distance (embedding_on_axis 0) probe == 0)
    by (vm_compute; reflexivity).
  split; [exact Hd|].
  edestruct (own_embedding_recognized axis_distance one_identity image probe
               large_face (mkQuality 1.0 [] true 128 50 150)
               "Alice"%string (embedding_on_axis 0))
    as (o & s' & H1 & H2 & H3 & _);
    [ vm_compute; reflexivity
    | exact Hd
    | intros k [<-|[]] Hne; exfalso; apply Hne; reflexivity
    | vm_compute; reflexivity
    | vm_compute; discriminate
    | ].
  exists o, s'. split; [exact H1|]. split; [exact H2 | exact H3].
Defined.

(** ** Enrollment when the photo cannot be saved *)

Lemma dict_set_new {V} k (v : V) (d : dict V) :
  dict_get k d = None -> dict_set k v d = d ++ [(k, v)].
Proof.
  induction d as [|[k' v'] t IH]; simpl; [reflexivity|].
  destruct (String.eqb k' k); [discriminate|].
  intro H. rewrite (IH H). reflexivity.
Qed.

(** X18.  When everything succeeds but the saving of the photo, the
    enrollment of a new name returns the handler's error and yet the
    identity exists: its embedding is in the three encoding structures, it
    is listed with the default access level and no photo, and it has no
    metadata and no reference photo. *)
Theorem failed_save_still_enrolls dist self name image md now first rest q e :
  detect image = first :: rest ->
  _validate_face_quality image (choose_face first rest) = Some q ->
  0.6 <= quality_score q ->
  _extract_face_encoding image (choose_face first rest) = Some e ->
  dict_get name (person_encodings self) = None ->
  dict_get name (known_faces_metadata self) = None ->
  jpeg image = None ->
  exists self',
    add_known_person dist self name (Some image) md now = (AddFailed, self') /\
    person_encodings self' = person_encodings self ++ [(name, [e])] /\
    known_face_encodings self' = known_face_encodings self ++ [e] /\
    known_face_names self' = known_face_names self ++ [name] /\
    known_faces_metadata self' = known_faces_metadata self /\
    In (mkPersonInfo name "standard" "Unknown" EmptyString 1 0 0.0 false)
       (list_known_persons self') /\
    get_person_photo self' name = None.
Proof.
  intros Hdet Hq Hgate He Hnew Hmd Hj.
  unfold add_known_person. rewrite Hdet, Hq.
  replace (quality_score q <? 0.6) with false
    by (symmetry; apply Qltb_false; exact Hgate).
  rewrite He, Hnew. unfold store_encoding. rewrite Hnew.
  unfold record_photo. rewrite Hj.
  eexists. split; [reflexivity|]. simpl.
  rewrite (dict_set_new _ _ _ Hnew).
  split; [reflexivity|]. split; [reflexivity|]. split; [reflexivity|].
  split; [reflexivity|].
  split.
  - unfold list_known_persons. simpl.
    rewrite map_app. apply in_or_app. right. simpl. rewrite Hmd.
    left. reflexivity.
  - unfold get_person_photo. simpl. rewrite Hmd. reflexivity.
Qed.

Lemma failed_save_still_enrolls_witness :
  exists self',
    add_known_person axis_distance new_engine "Alice"
      (Some (picture large_face (embedding_on_axis 0) None)) None
      "2024-01-01T00:00:00" = (AddFailed, self') /\
    known_face_names self' = ["Alice"%string].
Proof.
  edestruct (failed_save_still_enrolls axis_distance new_engine "Alice"%string
               (picture large_face (embedding_on_axis 0) None) None
               "2024-01-01T00:00:00"%string large_face [])
    as (s' & H1 & _ & _ & H4 & _);
    [ reflexivity
    | vm_compute; reflexivity
    | vm_compute; discriminate
    | vm_compute; reflexivity
    | reflexivity
    | reflexivity
    | reflexivity
    | ].
  exists s'. split; [exact H1 | exact H4].
Defined.
